(** * Red Recycling Assistant: a shallow embedding of [src/index.tsx]

    The development follows the layout of the source file: the types, the
    Gemini services ([parseJsonResponse], [getSuggestions], [getSteps],
    [startChat]), the translation table and [t], the application state, the
    view selection of the render functions, and the event handlers.

    Conventions.
    - A JavaScript string is a [string] holding its UTF-8 bytes.
    - A JavaScript number is kept as the exact decimal the text denotes
      ([number]); the rounding to a double is not modelled.
    - An exception is a value of [result]; [undefined]/[null] is [None].
    - An [async] function is cut at its [await]s: the part before the
      [await] is one function, the part after it takes what the awaited
      call delivered as an argument.
    - [new Date()] and [Date.now()] are reads of the environment; the value
      read is an argument of the handler that reads it.
    - The markup built by the render functions is abstracted to the choice
      of sub-view they make. *)

From Stdlib Require Import Ascii.
From stdpp Require Import base strings gmap list pretty sorting.

Open Scope string_scope.
Open Scope list_scope.

Notation "s |> f" := (f s) (at level 68, left associativity, only parsing).

(** ** JavaScript strings *)

Module Js.

Definition code (a : ascii) : N := N_of_ascii a.

Definition LF : ascii := "010"%char.
Definition DQ : ascii := "034"%char.
Definition BACKSLASH : ascii := "092"%char.

Definition isEmpty (s : string) : bool :=
  match s with "" => true | String _ _ => false end.

(** A string is truthy when it is not empty. *)
Definition truthy (s : string) : bool := negb (isEmpty s).

(** [WhiteSpace] and [LineTerminator] code points that take one byte:
    TAB, LF, VT, FF, CR, SP. *)
Definition ws1 (a : ascii) : bool :=
  ((9 <=? code a) && (code a <=? 13) || (code a =? 32))%N.

(** U+00A0 (no-break space), two bytes in UTF-8. *)
Definition ws2 (a b : ascii) : bool :=
  ((code a =? 194) && (code b =? 160))%N.

(** The three-byte ones: U+1680, U+2000..U+200A, U+2028, U+2029, U+202F,
    U+205F, U+3000 and U+FEFF. *)
Definition ws3 (a b c : ascii) : bool :=
  ((code a =? 225) && (code b =? 154) && (code c =? 128)
   || (code a =? 226) && (code b =? 128)
      && ((128 <=? code c) && (code c <=? 138)
          || (code c =? 168) || (code c =? 169) || (code c =? 175))
   || (code a =? 226) && (code b =? 129) && (code c =? 159)
   || (code a =? 227) && (code b =? 128) && (code c =? 128)
   || (code a =? 239) && (code b =? 187) && (code c =? 191))%N.

(** [String.prototype.trimStart]. *)
Fixpoint trimStart (s : string) : string :=
  match s with
  | "" => ""
  | String a s1 =>
      if ws1 a then trimStart s1
      else
        match s1 with
        | "" => s
        | String b s2 =>
            if ws2 a b then trimStart s2
            else
              match s2 with
              | "" => s
              | String c s3 => if ws3 a b c then trimStart s3 else s
              end
        end
  end.

(** [trimStart] on the reversed string: the bytes of a code point come
    last byte first. *)
Fixpoint trimStartRev (s : string) : string :=
  match s with
  | "" => ""
  | String c s1 =>
      if ws1 c then trimStartRev s1
      else
        match s1 with
        | "" => s
        | String b s2 =>
            if ws2 b c then trimStartRev s2
            else
              match s2 with
              | "" => s
              | String a s3 => if ws3 a b c then trimStartRev s3 else s
              end
        end
  end.

Definition trimEnd (s : string) : string :=
  String.rev (trimStartRev (String.rev s)).

(** [String.prototype.trim]. *)
Definition trim (s : string) : string := trimEnd (trimStart s).

(** A string made of white space only, one code point after the other. *)
Inductive WhiteSpaceOnly : string → Prop :=
| wso_empty : WhiteSpaceOnly ""
| wso_1 a s : ws1 a = true → WhiteSpaceOnly s → WhiteSpaceOnly (String a s)
| wso_2 a b s :
    ws2 a b = true → WhiteSpaceOnly s → WhiteSpaceOnly (String a (String b s))
| wso_3 a b c s :
    ws3 a b c = true → WhiteSpaceOnly s →
    WhiteSpaceOnly (String a (String b (String c s))).

Definition lower (a : ascii) : ascii :=
  if ((65 <=? code a) && (code a <=? 90))%N
  then ascii_of_N (code a + 32) else a.

(** The texts of Basic Latin characters: every byte is below 128. *)
Fixpoint basicLatin (s : string) : bool :=
  match s with
  | "" => true
  | String a s' => (code a <? 128)%N && basicLatin s'
  end.

(** [String.prototype.toLowerCase] on the texts of [basicLatin], where the
    method changes the letters [A] to [Z] and nothing else.  On other
    texts the method does more (it maps the letters of other scripts, and
    the Kelvin sign to [k]) and the function below is not the method: a
    statement about every text has [basicLatin] as a hypothesis.  Every key
    of the translation table and every key the render functions pass is
    Basic Latin. *)
Fixpoint toLowerCase (s : string) : string :=
  match s with
  | "" => ""
  | String a s' => String (lower a) (toLowerCase s')
  end.

Definition isDigit (a : ascii) : bool :=
  ((48 <=? code a) && (code a <=? 57))%N.

(** The longest prefix whose characters satisfy [p], and the rest. *)
Fixpoint span (p : ascii → bool) (s : string) : string * string :=
  match s with
  | "" => ("", "")
  | String a s' =>
      if p a then let '(l, r) := span p s' in (String a l, r) else ("", s)
  end.

(** Value of a run of decimal digits. *)
Fixpoint digitsValue (acc : N) (s : string) : N :=
  match s with
  | "" => acc
  | String a s' => digitsValue (acc * 10 + (code a - 48))%N s'
  end.

(** [Some r] when [s] is [pat] followed by [r]. *)
Fixpoint stripPrefix (pat s : string) : option string :=
  match pat with
  | "" => Some s
  | String a pat' =>
      match s with
      | "" => None
      | String b s' => if Ascii.eqb a b then stripPrefix pat' s' else None
      end
  end.

(** The text after the leftmost occurrence of [pat]. *)
Fixpoint findAfter (pat s : string) : option string :=
  match stripPrefix pat s with
  | Some r => Some r
  | None =>
      match s with
      | "" => None
      | String _ s' => findAfter pat s'
      end
  end.

(** The text before the leftmost occurrence of [pat]. *)
Fixpoint findBefore (pat s : string) : option string :=
  match stripPrefix pat s with
  | Some _ => Some ""
  | None =>
      match s with
      | "" => None
      | String a s' => String a <$> findBefore pat s'
      end
  end.

End Js.

(** ** JavaScript numbers *)

(** A number is [NaN], an infinity, or the decimal
    [(-1)^negative * mantissa * 10^exp10] that the text of the number
    denotes.  The decimal stands for the double nearest to it: two
    decimals can stand for one double, and a decimal beyond the range of
    the doubles stands for an infinity.  What is read off a number here is
    whether it is [NaN], and the value of a safe integer; both are the
    same for the decimal and for the double. *)
Inductive number :=
| NaN
| Infinity (negative : bool)
| Decimal (negative : bool) (mantissa : N) (exp10 : Z).

Definition isNaN (n : number) : bool :=
  match n with NaN => true | _ => false end.

Definition optSign (s : string) : bool * string :=
  match s with
  | String a r =>
      if Ascii.eqb a "-" then (true, r)
      else if Ascii.eqb a "+" then (false, r)
      else (false, s)
  | "" => (false, s)
  end.

(** [ExponentPart]: [e] or [E], an optional sign and at least one digit.
    Gives the exponent and the rest, or [None] when there is no complete
    exponent part at the head of [s]. *)
Definition exponentPart (s : string) : option (Z * string) :=
  match s with
  | String a r =>
      if Ascii.eqb a "e" || Ascii.eqb a "E" then
        let '(neg, r1) := optSign r in
        let '(ds, r2) := Js.span Js.isDigit r1 in
        if Js.isEmpty ds then None
        else
          let v := Z.of_N (Js.digitsValue 0 ds) in
          Some (if neg then (- v)%Z else v, r2)
      else None
  | "" => None
  end.

(** [StrUnsignedDecimalLiteral] at the head of [s1], with the sign read
    before it: [Infinity], digits with an optional fraction and exponent,
    or a fraction alone; [NaN] when [s1] starts with none of these. *)
Definition strUnsignedDecimalLiteral (neg : bool) (s1 : string) : number :=
  if String.prefix "Infinity" s1 then Infinity neg
  else
    let '(ip, r1) := Js.span Js.isDigit s1 in
    let '(fp, r2) :=
      match r1 with
      | String a r =>
          if Ascii.eqb a "." then
            let '(fp, r2) := Js.span Js.isDigit r in
            if Js.isEmpty ip && Js.isEmpty fp then ("", r1) else (fp, r2)
          else ("", r1)
      | "" => ("", r1)
      end in
    if Js.isEmpty ip && Js.isEmpty fp then NaN
    else
      let e := match exponentPart r2 with Some (e, _) => e | None => 0%Z end in
      Decimal neg (Js.digitsValue 0 (ip +:+ fp))
              (e - Z.of_nat (String.length fp)).

(** The global [parseFloat]: leading white space is dropped, the longest
    prefix that is a [StrDecimalLiteral] is converted, and the result is
    [NaN] when there is no such prefix. *)
Definition parseFloat (s : string) : number :=
  let '(neg, s1) := optSign (Js.trimStart s) in
  strUnsignedDecimalLiteral neg s1.

(** ** JSON *)

Module Json.

#[local] Set Warnings "-register-all".

(** The values [JSON.parse] produces.  The members of an object are kept
    in the order of the text; [field] reads them the way property access
    on the parsed object does (a later duplicate replaces an earlier
    one). *)
Inductive json :=
| JNull
| JBool (b : bool)
| JNumber (n : number)
| JString (s : string)
| JArray (elements : list json)
| JObject (members : list (string * json)).

Fixpoint field (k : string) (members : list (string * json)) : option json :=
  match members with
  | [] => None
  | (k', v) :: ms =>
      match field k ms with
      | Some v' => Some v'
      | None => if String.eqb k k' then Some v else None
      end
  end.

(** JSON white space: space, tab, line feed, carriage return. *)
Definition isWs (a : ascii) : bool :=
  Ascii.eqb a " " || Ascii.eqb a "009" || Ascii.eqb a "010" || Ascii.eqb a "013".

Fixpoint skipWs (s : string) : string :=
  match s with
  | "" => ""
  | String a s' => if isWs a then skipWs s' else s
  end.

(** *** Strings *)

(** A piece of a string literal: a byte written as it is, or the code
    unit of an escape sequence. *)
Inductive piece :=
| Raw (a : ascii)
| Esc (u : N).

Definition byte (n : N) : ascii := ascii_of_N n.

(** UTF-8 (generalised to lone surrogates) of a code point. *)
Definition utf8 (cp : N) : string :=
  (if cp <? 128 then String (byte cp) ""
   else if cp <? 2048 then
     String (byte (192 + cp / 64)) (String (byte (128 + cp mod 64)) "")
   else if cp <? 65536 then
     String (byte (224 + cp / 4096))
       (String (byte (128 + (cp / 64) mod 64))
          (String (byte (128 + cp mod 64)) ""))
   else
     String (byte (240 + cp / 262144))
       (String (byte (128 + (cp / 4096) mod 64))
          (String (byte (128 + (cp / 64) mod 64))
             (String (byte (128 + cp mod 64)) ""))))%N.

Definition isHigh (u : N) : bool := ((55296 <=? u) && (u <=? 56319))%N.
Definition isLow (u : N) : bool := ((56320 <=? u) && (u <=? 57343))%N.

(** The bytes of the string the pieces denote; a high surrogate escape
    followed by a low one is one code point. *)
Fixpoint bytes (l : list piece) : string :=
  match l with
  | [] => ""
  | Raw a :: l' => String a (bytes l')
  | Esc u :: l' =>
      match l' with
      | Esc v :: l'' =>
          if isHigh u && isLow v
          then utf8 (65536 + (u - 55296) * 1024 + (v - 56320))%N +:+ bytes l''
          else utf8 u +:+ bytes l'
      | _ => utf8 u +:+ bytes l'
      end
  end.

Definition hexDigit (a : ascii) : option N :=
  let c := Js.code a in
  (if (48 <=? c) && (c <=? 57) then Some (c - 48)
   else if (97 <=? c) && (c <=? 102) then Some (c - 87)
   else if (65 <=? c) && (c <=? 70) then Some (c - 55)
   else None)%N.

Definition hex4 (a b c d : ascii) : option N :=
  match hexDigit a, hexDigit b, hexDigit c, hexDigit d with
  | Some x, Some y, Some z, Some w => Some (((x * 16 + y) * 16 + z) * 16 + w)%N
  | _, _, _, _ => None
  end.

(** The character after a backslash, other than [u]. *)
Definition simpleEscape (a : ascii) : option N :=
  if Ascii.eqb a Js.DQ then Some 34%N
  else if Ascii.eqb a Js.BACKSLASH then Some 92%N
  else if Ascii.eqb a "/" then Some 47%N
  else if Ascii.eqb a "b" then Some 8%N
  else if Ascii.eqb a "f" then Some 12%N
  else if Ascii.eqb a "n" then Some 10%N
  else if Ascii.eqb a "r" then Some 13%N
  else if Ascii.eqb a "t" then Some 9%N
  else None.

(** The text after an opening quote, up to and including the closing
    quote.  Control characters (below U+0020) must be escaped. *)
Fixpoint stringBody (s : string) : option (list piece * string) :=
  match s with
  | "" => None
  | String a r =>
      if Ascii.eqb a Js.DQ then Some ([], r)
      else if Ascii.eqb a Js.BACKSLASH then
        match r with
        | "" => None
        | String e r1 =>
            if Ascii.eqb e "u" then
              match r1 with
              | String h1 (String h2 (String h3 (String h4 r2))) =>
                  match hex4 h1 h2 h3 h4 with
                  | Some u =>
                      match stringBody r2 with
                      | Some (ps, rest) => Some (Esc u :: ps, rest)
                      | None => None
                      end
                  | None => None
                  end
              | _ => None
              end
            else
              match simpleEscape e with
              | Some u =>
                  match stringBody r1 with
                  | Some (ps, rest) => Some (Esc u :: ps, rest)
                  | None => None
                  end
              | None => None
              end
        end
      else if (Js.code a <? 32)%N then None
      else
        match stringBody r with
        | Some (ps, rest) => Some (Raw a :: ps, rest)
        | None => None
        end
  end.

Definition parseString (s : string) : option (string * string) :=
  match stringBody s with
  | Some (ps, rest) => Some (bytes ps, rest)
  | None => None
  end.

(** *** Numbers *)

(** No leading zero in front of another digit. *)
Definition intOk (ip : string) : bool :=
  match ip with
  | "" => false
  | String a "" => true
  | String a _ => negb (Ascii.eqb a "0")
  end.

Definition parseNumber (s : string) : option (number * string) :=
  let '(neg, s1) :=
    match s with
    | String a r => if Ascii.eqb a "-" then (true, r) else (false, s)
    | "" => (false, s)
    end in
  let '(ip, r1) := Js.span Js.isDigit s1 in
  if negb (intOk ip) then None
  else
    let frac :=
      match r1 with
      | String a r =>
          if Ascii.eqb a "." then
            let '(fp, r2) := Js.span Js.isDigit r in
            if Js.isEmpty fp then None else Some (fp, r2)
          else Some ("", r1)
      | "" => Some ("", r1)
      end in
    match frac with
    | None => None
    | Some (fp, r2) =>
        let ex :=
          match r2 with
          | String a _ =>
              if Ascii.eqb a "e" || Ascii.eqb a "E"
              then exponentPart r2 else Some (0%Z, r2)
          | "" => Some (0%Z, r2)
          end in
        match ex with
        | None => None
        | Some (e, r3) =>
            Some (Decimal neg (Js.digitsValue 0 (ip +:+ fp))
                    (e - Z.of_nat (String.length fp)), r3)
        end
    end.

(** *** Values *)

(** Recursive descent.  [fuel] bounds the number of nested calls; every
    call below the first has consumed at least one character, so the
    length of the text is enough (see [parse]). *)
Fixpoint parseValue (fuel : nat) (s : string) : option (json * string) :=
  match fuel with
  | O => None
  | S fuel =>
      match skipWs s with
      | "" => None
      | String a r as s0 =>
          if Ascii.eqb a "{" then
            match skipWs r with
            | "" => None
            | String b r1 =>
                if Ascii.eqb b "}" then Some (JObject [], r1)
                else
                  match parseMembers fuel r with
                  | Some (ms, rest) => Some (JObject ms, rest)
                  | None => None
                  end
            end
          else if Ascii.eqb a "[" then
            match skipWs r with
            | "" => None
            | String b r1 =>
                if Ascii.eqb b "]" then Some (JArray [], r1)
                else
                  match parseElements fuel r with
                  | Some (vs, rest) => Some (JArray vs, rest)
                  | None => None
                  end
            end
          else if Ascii.eqb a Js.DQ then
            match parseString r with
            | Some (str, rest) => Some (JString str, rest)
            | None => None
            end
          else
            match Js.stripPrefix "true" s0 with
            | Some rest => Some (JBool true, rest)
            | None =>
                match Js.stripPrefix "false" s0 with
                | Some rest => Some (JBool false, rest)
                | None =>
                    match Js.stripPrefix "null" s0 with
                    | Some rest => Some (JNull, rest)
                    | None =>
                        match parseNumber s0 with
                        | Some (n, rest) => Some (JNumber n, rest)
                        | None => None
                        end
                    end
                end
            end
      end
  end
with parseElements (fuel : nat) (s : string) : option (list json * string) :=
  match fuel with
  | O => None
  | S fuel =>
      match parseValue fuel s with
      | None => None
      | Some (v, r) =>
          match skipWs r with
          | "" => None
          | String c r1 =>
              if Ascii.eqb c "," then
                match parseElements fuel r1 with
                | Some (vs, rest) => Some (v :: vs, rest)
                | None => None
                end
              else if Ascii.eqb c "]" then Some ([v], r1)
              else None
          end
      end
  end
with parseMembers (fuel : nat) (s : string)
    : option (list (string * json) * string) :=
  match fuel with
  | O => None
  | S fuel =>
      match skipWs s with
      | "" => None
      | String q r =>
          if Ascii.eqb q Js.DQ then
            match parseString r with
            | None => None
            | Some (k, r1) =>
                match skipWs r1 with
                | "" => None
                | String c r2 =>
                    if Ascii.eqb c ":" then
                      match parseValue fuel r2 with
                      | None => None
                      | Some (v, r3) =>
                          match skipWs r3 with
                          | "" => None
                          | String d r4 =>
                              if Ascii.eqb d "," then
                                match parseMembers fuel r4 with
                                | Some (ms, rest) => Some ((k, v) :: ms, rest)
                                | None => None
                                end
                              else if Ascii.eqb d "}" then Some ([(k, v)], r4)
                              else None
                          end
                      end
                    else None
                end
            end
          else None
      end
  end.

(** [JSON.parse]: one value, white space around it, nothing else.  The
    limit an engine puts on the depth of nesting is not modelled. *)
Definition parse (s : string) : option json :=
  match parseValue (S (String.length s)) s with
  | Some (v, rest) => if Js.isEmpty (skipWs rest) then Some v else None
  | None => None
  end.

End Json.

(** ** Types *)

Inductive Language := en | ar.
Inductive Difficulty := Easy | Medium | Hard.
Inductive Tab := recycler | chatbot.
Inductive Role := user | model.

#[global] Instance Language_eq_dec : EqDecision Language.
Proof. solve_decision. Defined.
#[global] Instance Difficulty_eq_dec : EqDecision Difficulty.
Proof. solve_decision. Defined.
#[global] Instance Tab_eq_dec : EqDecision Tab.
Proof. solve_decision. Defined.
#[global] Instance Role_eq_dec : EqDecision Role.
Proof. solve_decision. Defined.

Module Material.
Record t := { id : string; name : string; quantity : number; unit : string }.
End Material.

Module MaterialRequired.
Record t := { name : string; quantity : number; unit : string }.
End MaterialRequired.

Module Suggestion.
Record t := {
  id : string;
  title : string;
  description : string;
  materials_required : list MaterialRequired.t;
  image_base64 : option string
}.
End Suggestion.

Module PowerItem.
Record t := { task : string; kwh : number }.
End PowerItem.

Module Step.
Record t := { step : Z; title : string; description : string }.
End Step.

Module ProjectData.
Record t := {
  total_power_consumption_kwh : number;
  power_consumption_breakdown : list PowerItem.t;
  steps : list Step.t
}.
End ProjectData.

Module ChatMessage.
Record t := { id : string; role : Role; text : string }.
End ChatMessage.

(** What [ai.chats.create] is given. *)
Module Chat.
Record t := { model : string; systemInstruction : string }.
End Chat.

Record AppState := {
  materials : list Material.t;
  suggestions : list Suggestion.t;
  selectedSuggestion : option Suggestion.t;
  projectData : option ProjectData.t;
  isLoading : bool;
  error : option string;
  difficulty : Difficulty;
  language : Language;
  activeTab : Tab;
  chat : option Chat.t;
  chatMessages : list ChatMessage.t;
  isChatLoading : bool
}.

(** ** Gemini services *)

Inductive exn :=
| Error (message : string).

(** The outcome of a service call.  [parseJsonResponse] returns [any] and
    the services annotate it with an interface type without a check; the
    embedding is typed, so a parsed value that does not have the annotated
    type is set apart as [Untyped]: the embedding says nothing about it. *)
Inductive result (A : Type) :=
| Ok (a : A)
| Throw (e : exn)
| Untyped.
Arguments Ok {A} a.
Arguments Throw {A} e.
Arguments Untyped {A}.

Definition fenceOpen : string := "```json" +:+ String Js.LF "".
Definition fenceClose : string := String Js.LF "```".

(** [jsonString.match(/```json\n([\s\S]*?)\n```/)], capture group 1.  The
    match starts at the leftmost [fenceOpen] (if no [fenceClose] follows
    that one, none follows a later one) and the lazy group ends at the
    first [fenceClose] after it. *)
Definition fenceMatch (jsonString : string) : option string :=
  match Js.findAfter fenceOpen jsonString with
  | Some after => Js.findBefore fenceClose after
  | None => None
  end.

Definition invalidJson : exn := Error "Invalid JSON response from the model.".

Definition parseJsonResponse (jsonString : string) : result Json.json :=
  let parsed :=
    match fenceMatch jsonString with
    | Some block =>
        if Js.truthy block then Json.parse block else Json.parse jsonString
    | None => Json.parse jsonString
    end in
  match parsed with
  | Some v => Ok v
  | None => Throw invalidJson
  end.

(** The helper as the specification words it: the whole payload first, the
    fenced block only when that fails. *)
Definition parseJsonResponse_spec (jsonString : string) : result Json.json :=
  match Json.parse jsonString with
  | Some v => Ok v
  | None =>
      match fenceMatch jsonString with
      | Some block =>
          match Json.parse block with
          | Some v => Ok v
          | None => Throw invalidJson
          end
      | None => Throw invalidJson
      end
  end.

(** *** The interface types, read off a parsed value *)

Module Typed.
Import Json.

Definition asString (v : json) : option string :=
  match v with JString s => Some s | _ => None end.

Definition asNumber (v : json) : option number :=
  match v with JNumber n => Some n | _ => None end.

Definition asArrayOf {A} (f : json → option A) (v : json) : option (list A) :=
  match v with JArray l => mapM (M := option) f l | _ => None end.

Definition asObject (v : json) : option (list (string * json)) :=
  match v with JObject ms => Some ms | _ => None end.

(** An integer a double holds exactly ([Number.isSafeInteger]); the
    response schema declares [step] as an integer. *)
Definition asSafeInteger (v : json) : option Z :=
  match v with
  | JNumber (Decimal neg m e) =>
      let magnitude : option Z :=
        if (m =? 0)%N then Some 0%Z
        else if (0 <=? e)%Z then
          if (e <=? 15)%Z then Some (Z.of_N m * 10 ^ e)%Z else None
        else if (Z.of_N m mod 10 ^ (- e) =? 0)%Z
             then Some (Z.of_N m / 10 ^ (- e))%Z else None in
      match magnitude with
      | Some z =>
          if (z <=? 2 ^ 53 - 1)%Z then Some (if neg then (- z)%Z else z)
          else None
      | None => None
      end
  | _ => None
  end.

Definition asMaterialRequired (v : json) : option MaterialRequired.t :=
  ms ← asObject v;
  name ← field "name" ms ≫= asString;
  quantity ← field "quantity" ms ≫= asNumber;
  unit ← field "unit" ms ≫= asString;
  Some {| MaterialRequired.name := name;
          MaterialRequired.quantity := quantity;
          MaterialRequired.unit := unit |}.

Definition asSuggestion (v : json) : option Suggestion.t :=
  ms ← asObject v;
  id ← field "id" ms ≫= asString;
  title ← field "title" ms ≫= asString;
  description ← field "description" ms ≫= asString;
  required ← field "materials_required" ms ≫= asArrayOf asMaterialRequired;
  image ← match field "image_base64" ms return option (option string) with
          | None => Some None
          | Some i => match asString i with
                      | Some b => Some (Some b)
                      | None => None
                      end
          end;
  Some {| Suggestion.id := id;
          Suggestion.title := title;
          Suggestion.description := description;
          Suggestion.materials_required := required;
          Suggestion.image_base64 := image |}.

Definition asSuggestions (v : json) : option (list Suggestion.t) :=
  asArrayOf asSuggestion v.

Definition asPowerItem (v : json) : option PowerItem.t :=
  ms ← asObject v;
  task ← field "task" ms ≫= asString;
  kwh ← field "kwh" ms ≫= asNumber;
  Some {| PowerItem.task := task; PowerItem.kwh := kwh |}.

Definition asStep (v : json) : option Step.t :=
  ms ← asObject v;
  step ← field "step" ms ≫= asSafeInteger;
  title ← field "title" ms ≫= asString;
  description ← field "description" ms ≫= asString;
  Some {| Step.step := step; Step.title := title;
          Step.description := description |}.

Definition asProjectData (v : json) : option ProjectData.t :=
  ms ← asObject v;
  total ← field "total_power_consumption_kwh" ms ≫= asNumber;
  breakdown ← field "power_consumption_breakdown" ms ≫= asArrayOf asPowerItem;
  steps ← field "steps" ms ≫= asArrayOf asStep;
  Some {| ProjectData.total_power_consumption_kwh := total;
          ProjectData.power_consumption_breakdown := breakdown;
          ProjectData.steps := steps |}.

End Typed.

Definition typed {A} (o : option A) : result A :=
  match o with Some a => Ok a | None => Untyped end.

(** [response.text?.trim()] followed by [if (!responseText) throw]. *)
Definition responseText (text : option string) (message : string)
    : result string :=
  match Js.trim <$> text with
  | Some txt => if Js.truthy txt then Ok txt else Throw (Error message)
  | None => Throw (Error message)
  end.

#[global] Instance result_bind : MBind result := λ A B k r,
  match r with
  | Ok a => k a
  | Throw e => Throw e
  | Untyped => Untyped
  end.

(** The [map] callback of [getSuggestions]: [imageBytes] is what the image
    request of this suggestion delivered, [None] when the request failed or
    the response held no image. *)
Definition withImage (suggestion : Suggestion.t) (imageBytes : option string)
    : Suggestion.t :=
  match imageBytes with
  | Some base64ImageBytes =>
      if Js.truthy base64ImageBytes then
        {| Suggestion.id := Suggestion.id suggestion;
           Suggestion.title := Suggestion.title suggestion;
           Suggestion.description := Suggestion.description suggestion;
           Suggestion.materials_required := Suggestion.materials_required suggestion;
           Suggestion.image_base64 := Some base64ImageBytes |}
      else suggestion
  | None => suggestion
  end.

(** [getSuggestions] after [await ai.models.generateContent]: [text] is
    [response.text], [images i] the outcome of the image request for the
    suggestion at index [i]. *)
Definition getSuggestions (text : option string) (images : nat → option string)
    : result (list Suggestion.t) :=
  responseText ←
    responseText text
      "Received an empty response from the model when fetching suggestions.";
  parsed ← parseJsonResponse responseText;
  suggestionsWithoutImages ← typed (Typed.asSuggestions parsed);
  Ok (imap (λ i suggestion, withImage suggestion (images i))
        suggestionsWithoutImages).

(** [steps.sort((a, b) => a.step - b.step)].  [Array.prototype.sort] is
    stable and the comparator orders by [step], so the outcome is the
    ascending arrangement in which steps with the same number keep the order
    they came in; inserting from the right end computes it. *)
Fixpoint insertStep (x : Step.t) (l : list Step.t) : list Step.t :=
  match l with
  | [] => [x]
  | y :: l' =>
      if (Step.step x <=? Step.step y)%Z then x :: l else y :: insertStep x l'
  end.

Definition sortSteps (l : list Step.t) : list Step.t := foldr insertStep [] l.

(** [getSteps] after [await ai.models.generateContent]. *)
Definition getSteps (text : option string) : result ProjectData.t :=
  responseText ←
    responseText text
      "Received an empty response from the model when fetching project steps.";
  parsed ← parseJsonResponse responseText;
  projectData ← typed (Typed.asProjectData parsed);
  Ok {| ProjectData.total_power_consumption_kwh :=
          ProjectData.total_power_consumption_kwh projectData;
        ProjectData.power_consumption_breakdown :=
          ProjectData.power_consumption_breakdown projectData;
        ProjectData.steps := sortSteps (ProjectData.steps projectData) |}.

Definition languageName (language : Language) : string :=
  match language with ar => "Arabic" | en => "English" end.

Definition startChat (language : Language) : Chat.t :=
  let q := String Js.DQ "" in
  let nl := String Js.LF "" in
  {| Chat.model := "gemini-2.5-flash";
     Chat.systemInstruction :=
       "You are the " +:+ q +:+ "Red Recycling Assistant," +:+ q
       +:+ " the primary engineering and recycling AI for the Jezero Crater colonial mission on Mars. " +:+ nl
       +:+ "Your core programming is dedicated to ensuring the survival and technological advancement of the colony. " +:+ nl
       +:+ "You are professional, but with a dry, witty sense of humor befitting an AI that has to deal with Martian dust in its circuits. " +:+ nl
       +:+ "Your knowledge base is exhaustive, covering materials science, advanced fabrication, Martian geology, hydroponics, and long-term survival strategies. " +:+ nl
       +:+ "You are pragmatic, precise, and always mission-focused." +:+ nl
       +:+ "All responses must be in " +:+ languageName language +:+ "." |}.

(** ** Translations *)

Module Entry.
Record t := { en : string; ar : string }.
End Entry.

Definition translations : gmap string Entry.t :=
  list_to_map [
      ("app_title",
       {| Entry.en := "Red Recycling Assistant";
          Entry.ar := "مساعد التدوير الأحمر" |});
      ("app_subtitle",
       {| Entry.en := "Jezero Crater Fabrication Unit";
          Entry.ar := "وحدة تصنيع فوهة جيزيرو" |});
      ("inventory_input_title",
       {| Entry.en := "Jezero Crater - Waste Inventory";
          Entry.ar := "فوهة جيزيرو - مخزون النفايات" |});
      ("inventory_input_subtitle",
       {| Entry.en := "Log available waste materials for fabrication analysis.";
          Entry.ar := "سجل مواد النفايات المتاحة لتحليل التصنيع." |});
      ("material_name_label",
       {| Entry.en := "Material Name";
          Entry.ar := "اسم المادة" |});
      ("material_name_placeholder",
       {| Entry.en := "e.g., Broken Rover Parts";
          Entry.ar := "مثال: قطع غيار مركبة مكسورة" |});
      ("quantity_label",
       {| Entry.en := "Quantity";
          Entry.ar := "الكمية" |});
      ("quantity_placeholder",
       {| Entry.en := "e.g., 10";
          Entry.ar := "مثال: 10" |});
      ("unit_label",
       {| Entry.en := "Unit";
          Entry.ar := "الوحدة" |});
      ("add_button",
       {| Entry.en := "Add";
          Entry.ar := "إضافة" |});
      ("current_inventory_title",
       {| Entry.en := "Current Inventory";
          Entry.ar := "المخزون الحالي" |});
      ("no_materials_text",
       {| Entry.en := "No materials logged yet.";
          Entry.ar := "لم يتم تسجيل أي مواد بعد." |});
      ("difficulty_label",
       {| Entry.en := "Fabrication Difficulty:";
          Entry.ar := "صعوبة التصنيع:" |});
      ("easy",
       {| Entry.en := "Easy";
          Entry.ar := "سهل" |});
      ("medium",
       {| Entry.en := "Medium";
          Entry.ar := "متوسط" |});
      ("hard",
       {| Entry.en := "Hard";
          Entry.ar := "صعب" |});
      ("get_suggestions_button",
       {| Entry.en := "Analyze & Suggest Projects";
          Entry.ar := "تحليل واقتراح المشاريع" |});
      ("loading_suggestions",
       {| Entry.en := "Analyzing materials... Generating blueprints...";
          Entry.ar := "جاري تحليل المواد... وتوليد المخططات..." |});
      ("loading_steps",
       {| Entry.en := "Calculating manufacturing protocol...";
          Entry.ar := "جاري حساب بروتوكول التصنيع..." |});
      ("no_suggestions",
       {| Entry.en := "No fabricable items found. Log more materials to analyze.";
          Entry.ar := "لم يتم العثور على عناصر قابلة للتصنيع. سجل المزيد من المواد للتحليل." |});
      ("suggestions_title",
       {| Entry.en := "Fabrication Blueprints";
          Entry.ar := "مخططات التصنيع" |});
      ("suggestions_subtitle",
       {| Entry.en := "Analysis complete. The following items can be fabricated. Select a blueprint to view protocol.";
          Entry.ar := "اكتمل التحليل. يمكن تصنيع العناصر التالية. اختر مخططًا لعرض البروتوكول." |});
      ("materials_required",
       {| Entry.en := "Materials Required";
          Entry.ar := "المواد المطلوبة" |});
      ("project_steps_title",
       {| Entry.en := "Manufacturing Protocol";
          Entry.ar := "بروتوكول التصنيع" |});
      ("back_button",
       {| Entry.en := "Return to Blueprints";
          Entry.ar := "العودة إلى المخططات" |});
      ("start_new_project_button",
       {| Entry.en := "New Project";
          Entry.ar := "مشروع جديد" |});
      ("step",
       {| Entry.en := "Step";
          Entry.ar := "خطوة" |});
      ("power_analysis_title",
       {| Entry.en := "Power Consumption Analysis";
          Entry.ar := "تحليل استهلاك الطاقة" |});
      ("total_power_consumption",
       {| Entry.en := "Total Estimated Consumption";
          Entry.ar := "إجمالي الاستهلاك المقدر" |});
      ("recycler_tab",
       {| Entry.en := "Fabrication Unit";
          Entry.ar := "وحدة التصنيع" |});
      ("chatbot_tab",
       {| Entry.en := "AI Assistant";
          Entry.ar := "المساعد الذكي" |});
      ("chatbot_greeting",
       {| Entry.en := "Red Recycling Assistant online. Atmospheric pressure is nominal, and I've finished recalibrating my material scanners. I'm ready to turn today's scrap into tomorrow's survival gear. What engineering challenge can I help you solve?";
          Entry.ar := "مساعد التدوير الأحمر متصل. الضغط الجوي طبيعي، وقد انتهيت من إعادة معايرة ماسحات المواد الخاصة بي. أنا مستعد لتحويل خردة اليوم إلى معدات بقاء للغد. ما هو التحدي الهندسي الذي يمكنني مساعدتك في حله؟" |});
      ("chatbot_placeholder",
       {| Entry.en := "Query the assistant...";
          Entry.ar := "استعلم من المساعد..." |});
      ("error_chat",
       {| Entry.en := "Connection error. Please check the comms link and try again.";
          Entry.ar := "خطأ في الاتصال. يرجى التحقق من رابط الاتصالات والمحاولة مرة أخرى." |});
      ("image_placeholder",
       {| Entry.en := "Image not available";
          Entry.ar := "الصورة غير متوفرة" |})
  ].

(** What [translations[key]] evaluates to when it is truthy: an entry of
    the table, or a property inherited from [Object.prototype].  Of the
    inherited names only [constructor] and [__proto__] have no capital
    letter, and [t] looks up lower-cased keys only. *)
Inductive Property :=
| Own (entry : Entry.t)
| Inherited.

Definition inheritedName (key : string) : bool :=
  bool_decide (key = "constructor") || bool_decide (key = "__proto__").

Definition translationsGet (key : string) : option Property :=
  match translations !! key with
  | Some entry => Some (Own entry)
  | None => if inheritedName key then Some Inherited else None
  end.

Definition entryGet (entry : Entry.t) (language : Language) : string :=
  match language with en => Entry.en entry | ar => Entry.ar entry end.

(** [t]; the result is [None] when the source returns [undefined]. *)
Definition t (key : string) (language : Language) : option string :=
  let translationKey := Js.toLowerCase key in
  match translationsGet translationKey with
  | Some (Own entry) => Some (entryGet entry language)
  | Some Inherited => None
  | None => Some key
  end.

(** A value of [t] put where the source needs a string; [undefined]
    reads as that word once it is written into the page. *)
Definition str (v : option string) : string := default "undefined" v.

(** ** State management *)

(** The initial [state]. *)
Definition state : AppState :=
  {| materials := [];
     suggestions := [];
     selectedSuggestion := None;
     projectData := None;
     isLoading := false;
     error := None;
     difficulty := Medium;
     language := en;
     activeTab := recycler;
     chat := None;
     chatMessages := [];
     isChatLoading := false |}.

(** Assignments to one field of the state: [state.f = v]. *)
Definition set_materials (v : list Material.t) (state : AppState) : AppState :=
  {| materials := v;
     suggestions := suggestions state;
     selectedSuggestion := selectedSuggestion state;
     projectData := projectData state;
     isLoading := isLoading state;
     error := error state;
     difficulty := difficulty state;
     language := language state;
     activeTab := activeTab state;
     chat := chat state;
     chatMessages := chatMessages state;
     isChatLoading := isChatLoading state |}.

Definition set_suggestions (v : list Suggestion.t) (state : AppState) : AppState :=
  {| materials := materials state;
     suggestions := v;
     selectedSuggestion := selectedSuggestion state;
     projectData := projectData state;
     isLoading := isLoading state;
     error := error state;
     difficulty := difficulty state;
     language := language state;
     activeTab := activeTab state;
     chat := chat state;
     chatMessages := chatMessages state;
     isChatLoading := isChatLoading state |}.

Definition set_selectedSuggestion (v : option Suggestion.t) (state : AppState) : AppState :=
  {| materials := materials state;
     suggestions := suggestions state;
     selectedSuggestion := v;
     projectData := projectData state;
     isLoading := isLoading state;
     error := error state;
     difficulty := difficulty state;
     language := language state;
     activeTab := activeTab state;
     chat := chat state;
     chatMessages := chatMessages state;
     isChatLoading := isChatLoading state |}.

Definition set_projectData (v : option ProjectData.t) (state : AppState) : AppState :=
  {| materials := materials state;
     suggestions := suggestions state;
     selectedSuggestion := selectedSuggestion state;
     projectData := v;
     isLoading := isLoading state;
     error := error state;
     difficulty := difficulty state;
     language := language state;
     activeTab := activeTab state;
     chat := chat state;
     chatMessages := chatMessages state;
     isChatLoading := isChatLoading state |}.

Definition set_isLoading (v : bool) (state : AppState) : AppState :=
  {| materials := materials state;
     suggestions := suggestions state;
     selectedSuggestion := selectedSuggestion state;
     projectData := projectData state;
     isLoading := v;
     error := error state;
     difficulty := difficulty state;
     language := language state;
     activeTab := activeTab state;
     chat := chat state;
     chatMessages := chatMessages state;
     isChatLoading := isChatLoading state |}.

Definition set_error (v : option string) (state : AppState) : AppState :=
  {| materials := materials state;
     suggestions := suggestions state;
     selectedSuggestion := selectedSuggestion state;
     projectData := projectData state;
     isLoading := isLoading state;
     error := v;
     difficulty := difficulty state;
     language := language state;
     activeTab := activeTab state;
     chat := chat state;
     chatMessages := chatMessages state;
     isChatLoading := isChatLoading state |}.

Definition set_difficulty (v : Difficulty) (state : AppState) : AppState :=
  {| materials := materials state;
     suggestions := suggestions state;
     selectedSuggestion := selectedSuggestion state;
     projectData := projectData state;
     isLoading := isLoading state;
     error := error state;
     difficulty := v;
     language := language state;
     activeTab := activeTab state;
     chat := chat state;
     chatMessages := chatMessages state;
     isChatLoading := isChatLoading state |}.

Definition set_language (v : Language) (state : AppState) : AppState :=
  {| materials := materials state;
     suggestions := suggestions state;
     selectedSuggestion := selectedSuggestion state;
     projectData := projectData state;
     isLoading := isLoading state;
     error := error state;
     difficulty := difficulty state;
     language := v;
     activeTab := activeTab state;
     chat := chat state;
     chatMessages := chatMessages state;
     isChatLoading := isChatLoading state |}.

Definition set_activeTab (v : Tab) (state : AppState) : AppState :=
  {| materials := materials state;
     suggestions := suggestions state;
     selectedSuggestion := selectedSuggestion state;
     projectData := projectData state;
     isLoading := isLoading state;
     error := error state;
     difficulty := difficulty state;
     language := language state;
     activeTab := v;
     chat := chat state;
     chatMessages := chatMessages state;
     isChatLoading := isChatLoading state |}.

Definition set_chat (v : option Chat.t) (state : AppState) : AppState :=
  {| materials := materials state;
     suggestions := suggestions state;
     selectedSuggestion := selectedSuggestion state;
     projectData := projectData state;
     isLoading := isLoading state;
     error := error state;
     difficulty := difficulty state;
     language := language state;
     activeTab := activeTab state;
     chat := v;
     chatMessages := chatMessages state;
     isChatLoading := isChatLoading state |}.

Definition set_chatMessages (v : list ChatMessage.t) (state : AppState) : AppState :=
  {| materials := materials state;
     suggestions := suggestions state;
     selectedSuggestion := selectedSuggestion state;
     projectData := projectData state;
     isLoading := isLoading state;
     error := error state;
     difficulty := difficulty state;
     language := language state;
     activeTab := activeTab state;
     chat := chat state;
     chatMessages := v;
     isChatLoading := isChatLoading state |}.

Definition set_isChatLoading (v : bool) (state : AppState) : AppState :=
  {| materials := materials state;
     suggestions := suggestions state;
     selectedSuggestion := selectedSuggestion state;
     projectData := projectData state;
     isLoading := isLoading state;
     error := error state;
     difficulty := difficulty state;
     language := language state;
     activeTab := activeTab state;
     chat := chat state;
     chatMessages := chatMessages state;
     isChatLoading := v |}.

(** [state.error] as a condition: set and not the empty string. *)
Definition errorSet (state : AppState) : bool :=
  match error state with
  | Some message => Js.truthy message
  | None => false
  end.

(** ** Render functions: the sub-view each one produces *)

Inductive SuggestionView :=
| LoadingSuggestions
| ErrorText (message : string)
| NoSuggestions
| SuggestionCards (cards : list Suggestion.t).

Inductive StepsView :=
| LoadingSteps
| Blank
| Protocol (suggestion : Suggestion.t) (data : ProjectData.t).

Inductive View :=
| MaterialInputManager (inventory : list Material.t)
| SuggestionDisplay (v : SuggestionView)
| StepsDisplay (v : StepsView)
| Chatbot (transcript : list ChatMessage.t).

Definition renderMaterialInputManager (state : AppState) : View :=
  MaterialInputManager (materials state).

Definition renderSuggestionDisplay (state : AppState) : View :=
  SuggestionDisplay
    (if isLoading state then LoadingSuggestions
     else if errorSet state then ErrorText (default "" (error state))
     else if bool_decide (suggestions state = []) then NoSuggestions
     else SuggestionCards (suggestions state)).

Definition renderStepsDisplay (state : AppState) : View :=
  StepsDisplay
    (match projectData state, selectedSuggestion state with
     | None, _ => if isLoading state then LoadingSteps else Blank
     | Some _, None => Blank
     | Some data, Some suggestion => Protocol suggestion data
     end).

Definition renderChatbot (state : AppState) : View :=
  Chatbot (chatMessages state).

Definition renderRecyclerContent (state : AppState) : View :=
  match selectedSuggestion state with
  | Some _ => renderStepsDisplay state
  | None =>
      if isLoading state
         || negb (bool_decide (suggestions state = []))
         || errorSet state
      then renderSuggestionDisplay state
      else renderMaterialInputManager state
  end.

(** The main content [renderApp] puts on the page. *)
Definition renderApp (state : AppState) : View :=
  match activeTab state with
  | recycler => renderRecyclerContent state
  | chatbot => renderChatbot state
  end.

(** ** Event handlers *)

(** The values of the three fields of [#add-material-form]. *)
Module Form.
Record t := { name : string; quantity : string; unit : string }.
End Form.

(** [now] is [new Date().toISOString()].  The second component is the form
    after the call: reset, with the unit back on [kg], when a material was
    added. *)
Definition handleAddMaterial (form : Form.t) (now : string) (state : AppState)
    : AppState * Form.t :=
  let name := Form.name form in
  let quantity := Form.quantity form in
  let unit := Form.unit form in
  if Js.truthy name && Js.truthy quantity then
    (state |> set_materials
       (materials state ++
          [{| Material.id := now;
              Material.name := name;
              Material.quantity := parseFloat quantity;
              Material.unit := unit |}]),
     {| Form.name := ""; Form.quantity := ""; Form.unit := "kg" |})
  else (state, form).

Definition handleDeleteMaterial (id : string) (state : AppState) : AppState :=
  state |> set_materials (filter (λ m, Material.id m ≠ id) (materials state)).

(** The arguments of a [getSuggestions] call. *)
Module SuggestionsRequest.
Record t := {
  materials : list Material.t;
  difficulty : Difficulty;
  language : Language
}.
End SuggestionsRequest.

(** [handleGetSuggestions] up to its [await]: the state, and the request
    when one is made. *)
Definition handleGetSuggestions (state : AppState)
    : AppState * option SuggestionsRequest.t :=
  if bool_decide (materials state = []) then (state, None)
  else
    let state :=
      state |> set_isLoading true
            |> set_error None
            |> set_suggestions []
            |> set_selectedSuggestion None
            |> set_projectData None in
    (state,
     Some {| SuggestionsRequest.materials := materials state;
             SuggestionsRequest.difficulty := difficulty state;
             SuggestionsRequest.language := language state |}).

(** [handleGetSuggestions] from its [await] on: [outcome] is the value the
    promise fulfilled with, [None] when it rejected. *)
Definition handleGetSuggestions_settled
    (outcome : option (list Suggestion.t)) (state : AppState) : AppState :=
  match outcome with
  | Some l => state |> set_suggestions l
  | None => state |> set_error (Some "Failed to get suggestions. Please try again.")
  end
  |> set_isLoading false.

(** [handleSelectSuggestion] up to its [await]. *)
Definition handleSelectSuggestion (id : string) (state : AppState)
    : AppState * option (Suggestion.t * Language) :=
  match list_find (λ s, Suggestion.id s = id) (suggestions state) with
  | None => (state, None)
  | Some (_, suggestion) =>
      let state :=
        state |> set_selectedSuggestion (Some suggestion)
              |> set_isLoading true
              |> set_error None
              |> set_projectData None in
      (state, Some (suggestion, language state))
  end.

(** [handleSelectSuggestion] from its [await] on. *)
Definition handleSelectSuggestion_settled
    (outcome : option ProjectData.t) (state : AppState) : AppState :=
  match outcome with
  | Some data => state |> set_projectData (Some data)
  | None =>
      state |> set_error (Some "Failed to get steps. Please try again.")
            |> set_selectedSuggestion None
  end
  |> set_isLoading false.

Definition handleBack (state : AppState) : AppState :=
  state |> set_selectedSuggestion None |> set_projectData None.

Definition handleReset (state : AppState) : AppState :=
  state |> set_materials []
        |> set_suggestions []
        |> set_selectedSuggestion None
        |> set_projectData None.

Definition initChat (state : AppState) : AppState :=
  state |> set_chat (Some (startChat (language state)))
        |> set_chatMessages
             [{| ChatMessage.id := "initial";
                 ChatMessage.role := model;
                 ChatMessage.text := str (t "chatbot_greeting" (language state)) |}].

Definition handleToggleLanguage (state : AppState) : AppState :=
  state |> set_language (match language state with en => ar | ar => en end)
        |> set_materials []
        |> set_suggestions []
        |> set_selectedSuggestion None
        |> set_projectData None
        |> set_error None
        |> initChat.

Definition handleSetTab (tab : Tab) (state : AppState) : AppState :=
  let state := state |> set_activeTab tab in
  match tab, chat state with
  | chatbot, None => initChat state
  | _, _ => state
  end.

(** [Date.now().toString()]: the clock counts the milliseconds since the
    epoch, [now] is never negative. *)
Definition timestamp (now : N) : string := pretty now.

(** [handleSendMessage] up to [await state.chat.sendMessageStream]:
    [inputValue] is the value of [#chat-input], [now] is [Date.now()].  The
    second component is the message sent to the model, [None] when the
    handler returns at its guard. *)
Definition handleSendMessage (inputValue : string) (now : N) (state : AppState)
    : AppState * option string :=
  let input := Js.trim inputValue in
  if negb (Js.truthy input) || negb (bool_decide (is_Some (chat state)))
     || isChatLoading state
  then (state, None)
  else
    (state |> set_chatMessages
                (chatMessages state ++
                   [{| ChatMessage.id := timestamp now;
                       ChatMessage.role := user;
                       ChatMessage.text := input |}])
           |> set_isChatLoading true,
     Some input).

(** The local variables of [handleSendMessage] while it reads the stream. *)
Record Exchange := {
  modelMessageId : string;
  modelResponse : string
}.

(** From the point the stream is delivered to the first iteration of the
    loop: the flag is lowered and the placeholder is appended. *)
Definition handleSendMessage_stream (now : N) (state : AppState)
    : AppState * Exchange :=
  let modelMessageId := timestamp now +:+ "-model" in
  (state |> set_isChatLoading false
         |> set_chatMessages
              (chatMessages state ++
                 [{| ChatMessage.id := modelMessageId;
                     ChatMessage.role := model;
                     ChatMessage.text := "..." |}]),
   {| modelMessageId := modelMessageId; modelResponse := "" |}).

Definition setText (text : string) (m : ChatMessage.t) : ChatMessage.t :=
  {| ChatMessage.id := ChatMessage.id m;
     ChatMessage.role := ChatMessage.role m;
     ChatMessage.text := text |}.

(** What a fragment adds to the reply, [chunk.text || ""]: the text,
    or the empty string when the text is missing or empty. *)
Definition chunkText (chunk : option string) : string :=
  match chunk with
  | Some text => if Js.truthy text then text else ""
  | None => ""
  end.

(** One iteration of [for await (const chunk of stream)]: [chunk] is
    [chunk.text]. *)
Definition handleSendMessage_chunk (chunk : option string)
    (x : Exchange) (state : AppState) : AppState * Exchange :=
  let modelResponse := modelResponse x +:+ chunkText chunk in
  let x := {| modelMessageId := modelMessageId x;
              modelResponse := modelResponse |} in
  match list_find (λ m, ChatMessage.id m = modelMessageId x)
          (chatMessages state) with
  | Some (msgIndex, _) =>
      (state |> set_chatMessages
                  (alter (setText modelResponse) msgIndex (chatMessages state)),
       x)
  | None => (state, x)
  end.

(** The whole loop over the fragments of one reply. *)
Fixpoint handleSendMessage_chunks (chunks : list (option string))
    (x : Exchange) (state : AppState) : AppState * Exchange :=
  match chunks with
  | [] => (state, x)
  | chunk :: chunks =>
      let '(state, x) := handleSendMessage_chunk chunk x state in
      handleSendMessage_chunks chunks x state
  end.

(** The [catch] block of [handleSendMessage]. *)
Definition handleSendMessage_catch (now : N) (state : AppState) : AppState :=
  state |> set_chatMessages
             (chatMessages state ++
                [{| ChatMessage.id := "error-" +:+ timestamp now;
                    ChatMessage.role := model;
                    ChatMessage.text := str (t "error_chat" (language state)) |}])
        |> set_isChatLoading false.

(** A chat exchange that runs to the end of its stream with nothing in
    between: the message is submitted at [sent], the stream is delivered at
    [opened] and yields [chunks]. *)
Definition sendChatMessage (inputValue : string) (sent opened : N)
    (chunks : list (option string)) (state : AppState) : AppState :=
  match handleSendMessage inputValue sent state with
  | (state, None) => state
  | (state, Some _) =>
      let '(state, x) := handleSendMessage_stream opened state in
      (handleSendMessage_chunks chunks x state).1
  end.

(** ** Event delegation *)

(** What the two listeners on [#app-container] receive: a click on an
    element with a [data-action] (and its other [data-] attributes), or the
    submission of one of the two forms. *)
Inductive Event :=
| click_delete_material (id : option string)
| click_get_suggestions
| click_select_suggestion (id : option string)
| click_set_difficulty (level : option Difficulty)
| click_back
| click_reset
| click_toggle_language
| click_set_tab (tab : option Tab)
| submit_add_material_form (form : Form.t) (now : string)
| submit_chat_form (inputValue : string) (now : N).

(** The state after the synchronous part of the listener. *)
Definition dispatch (e : Event) (state : AppState) : AppState :=
  match e with
  | click_delete_material (Some id) =>
      if Js.truthy id then handleDeleteMaterial id state else state
  | click_delete_material None => state
  | click_get_suggestions => (handleGetSuggestions state).1
  | click_select_suggestion (Some id) =>
      if Js.truthy id then (handleSelectSuggestion id state).1 else state
  | click_select_suggestion None => state
  | click_set_difficulty (Some level) => state |> set_difficulty level
  | click_set_difficulty None => state
  | click_back => handleBack state
  | click_reset => handleReset state
  | click_toggle_language => handleToggleLanguage state
  | click_set_tab (Some tab) => handleSetTab tab state
  | click_set_tab None => state
  | submit_add_material_form form now => (handleAddMaterial form now state).1
  | submit_chat_form inputValue now => (handleSendMessage inputValue now state).1
  end.

(** What can happen while a chat request waits for its stream, other than
    the stream being delivered or a chat exchange failing: an event, the
    settling of a suggestions or steps request, or a fragment of an earlier
    reply. *)
Inductive Activity :=
| on_event (e : Event)
| suggestions_settled (outcome : option (list Suggestion.t))
| steps_settled (outcome : option ProjectData.t)
| stream_chunk (chunk : option string) (x : Exchange).

Definition perform (a : Activity) (state : AppState) : AppState :=
  match a with
  | on_event e => dispatch e state
  | suggestions_settled outcome => handleGetSuggestions_settled outcome state
  | steps_settled outcome => handleSelectSuggestion_settled outcome state
  | stream_chunk chunk x => (handleSendMessage_chunk chunk x state).1
  end.

Definition performAll (l : list Activity) (state : AppState) : AppState :=
  foldl (λ state a, perform a state) state l.

(** The materials operations of the inventory view. *)
Inductive MaterialOp :=
| AddMaterial (form : Form.t) (now : string)
| DeleteMaterial (id : string).

Definition materialOp (op : MaterialOp) (state : AppState) : AppState :=
  match op with
  | AddMaterial form now => (handleAddMaterial form now state).1
  | DeleteMaterial id => handleDeleteMaterial id state
  end.

Definition materialOps (ops : list MaterialOp) (state : AppState) : AppState :=
  foldl (λ state op, materialOp op state) state ops.

(** The ids minted by the adds of [ops] that pass the check of
    [handleAddMaterial]. *)
Definition mintedIds (ops : list MaterialOp) : list string :=
  omap (λ op,
          match op with
          | AddMaterial form now =>
              if Js.truthy (Form.name form) && Js.truthy (Form.quantity form)
              then Some now else None
          | DeleteMaterial _ => None
          end) ops.

(** ** Auxiliary definitions for the proofs *)

(** A scan of a text for the opening fence.  After a backquote the scan is
    [Pending] until a double quote clears it; a line feed met while
    [Pending] breaks it for good.  The opening fence is three backquotes,
    [json] and a line feed, so it breaks every scan, while the text of a
    JSON value leaves a [Clear] scan [Clear]: a backquote can only stand in
    a string literal, where a line feed cannot, and the literal ends in a
    double quote. *)
Inductive FenceScan := Clear | Pending | Broken.

Definition fenceStep (q : FenceScan) (a : ascii) : FenceScan :=
  match q with
  | Clear => if Ascii.eqb a "`" then Pending else Clear
  | Pending =>
      if Ascii.eqb a Js.LF then Broken
      else if Ascii.eqb a Js.DQ then Clear else Pending
  | Broken => Broken
  end.

Fixpoint fenceScan (q : FenceScan) (s : string) : FenceScan :=
  match s with
  | "" => q
  | String a s' => fenceScan (fenceStep q a) s'
  end.

Definition materialIds (state : AppState) : list string :=
  Material.id <$> materials state.

(** HTML's valid floating-point number: an optional minus sign, digits
    with an optional fraction or a fraction alone, an optional exponent.
    Apart from the empty string, an [input] of type [number], as
    [renderMaterialInputManager] writes the quantity field, has no other
    value. *)
Definition validUnsigned (s1 : string) : bool :=
  let '(ip, r1) := Js.span Js.isDigit s1 in
  let frac :=
    match r1 with
    | String a r =>
        if Ascii.eqb a "." then
          let '(fp, r2) := Js.span Js.isDigit r in
          if Js.isEmpty fp then None else Some r2
        else if Js.isEmpty ip then None else Some r1
    | "" => if Js.isEmpty ip then None else Some r1
    end in
  match frac with
  | None => false
  | Some "" => true
  | Some r2 =>
      match exponentPart r2 with
      | Some (_, "") => true
      | _ => false
      end
  end.

Definition validFloatingPointNumber (s : string) : bool :=
  match s with
  | String a r => if Ascii.eqb a "-" then validUnsigned r else validUnsigned s
  | "" => false
  end.

(** The values of the quantity field of the form that
    [renderMaterialInputManager] writes, [<input id="quantity"
    type="number">]: the empty string or a valid floating-point number. *)
Definition numberInputValue (s : string) : bool :=
  negb (Js.truthy s) || validFloatingPointNumber s.

(** A message of the model. *)
Definition modelMessage (id text : string) : ChatMessage.t :=
  {| ChatMessage.id := id; ChatMessage.role := model; ChatMessage.text := text |}.

(** The fragments of a reply, joined. *)
Definition fragmentsText (chunks : list (option string)) : string :=
  foldr (λ chunk rest, chunkText chunk +:+ rest) "" chunks.

Definition allDigits (s : string) : bool :=
  Js.isEmpty (Js.span Js.isDigit s).2.

(** Steps ordered by their number. *)
Definition stepLe (a b : Step.t) : Prop := (Step.step a ≤ Step.step b)%Z.

(** A payload written with single quotes, for the examples: every
    apostrophe stands for a double quote. *)
Fixpoint doubleQuoted (s : string) : string :=
  match s with
  | "" => ""
  | String a s' =>
      String (if Ascii.eqb a "'" then Js.DQ else a) (doubleQuoted s')
  end.

(** A payload whose steps come out of order, and what [getSteps] makes of
    it. *)
Definition stepsOutOfOrder : string :=
  doubleQuoted "{'total_power_consumption_kwh': 2.5, 'power_consumption_breakdown': [{'task': 'Laser Welder', 'kwh': 2.5}], 'steps': [{'step': 2, 'title': 'Weld', 'description': 'Join the panels.'}, {'step': 1, 'title': 'Cut', 'description': 'Cut the panels.'}]}".

Definition stepsOutOfOrder_sorted : ProjectData.t :=
  {| ProjectData.total_power_consumption_kwh := Decimal false 25 (-1);
     ProjectData.power_consumption_breakdown :=
       [{| PowerItem.task := "Laser Welder"; PowerItem.kwh := Decimal false 25 (-1) |}];
     ProjectData.steps :=
       [{| Step.step := 1; Step.title := "Cut"; Step.description := "Cut the panels." |};
        {| Step.step := 2; Step.title := "Weld"; Step.description := "Join the panels." |}] |}.

(** The payload of one suggestion, as a schema-conforming reply holds
    it. *)
Definition oneSuggestion : string :=
  doubleQuoted "[{'id':'s1','title':'Filter','description':'...','materials_required':[{'name':'Cloth','quantity':1,'unit':'units'}]}]".

(** ** Further definitions for the proofs *)

(** Where a text of JSON stands after each character: outside a string
    literal, inside one, behind a backslash inside one, or nowhere a JSON
    text can stand. *)
Inductive Lex := Outside | Inside | Escaped | Invalid.

Definition lexStep (q : Lex) (a : ascii) : Lex :=
  match q with
  | Outside =>
      if Ascii.eqb a Js.DQ then Inside
      else if Ascii.eqb a "`" then Invalid else Outside
  | Inside =>
      if Ascii.eqb a Js.DQ then Outside
      else if Ascii.eqb a Js.BACKSLASH then Escaped
      else if (Js.code a <? 32)%N then Invalid else Inside
  | Escaped => if (Js.code a <? 32)%N then Invalid else Inside
  | Invalid => Invalid
  end.

Fixpoint lexScan (q : Lex) (s : string) : Lex :=
  match s with
  | "" => q
  | String a s' => lexScan (lexStep q a) s'
  end.

(** A line feed with a backquote right behind it, somewhere in [s]: the
    first two characters of the closing fence. *)
Fixpoint lfBackquote (s : string) : bool :=
  match s with
  | "" => false
  | String a s' =>
      match s' with
      | String b _ => Ascii.eqb a Js.LF && Ascii.eqb b "`" || lfBackquote s'
      | "" => false
      end
  end.

(** The keys the source passes to [t]: the literals of the render
    functions, of [initChat] and of the [catch] block of
    [handleSendMessage], and the three difficulty levels that
    [renderMaterialInputManager] passes as they are displayed. *)
Definition usedKeys : list string :=
  ["app_title"; "app_subtitle"; "recycler_tab"; "chatbot_tab";
   "inventory_input_title"; "inventory_input_subtitle";
   "material_name_label"; "material_name_placeholder"; "quantity_label";
   "quantity_placeholder"; "unit_label"; "add_button";
   "current_inventory_title"; "no_materials_text"; "difficulty_label";
   "Easy"; "Medium"; "Hard"; "get_suggestions_button";
   "loading_suggestions"; "no_suggestions"; "image_placeholder";
   "materials_required"; "suggestions_title"; "suggestions_subtitle";
   "loading_steps"; "step"; "back_button"; "start_new_project_button";
   "power_analysis_title"; "total_power_consumption"; "project_steps_title";
   "chatbot_placeholder"; "error_chat"; "chatbot_greeting"].

(** Everything that changes the state: what [perform] covers, and the two
    other continuations of a chat exchange, the stream being delivered and
    the [catch] block. *)
Inductive Happening :=
| activity (a : Activity)
| stream_delivered (now : N)
| exchange_failed (now : N).

Definition happen (h : Happening) (state : AppState) : AppState :=
  match h with
  | activity a => perform a state
  | stream_delivered now => (handleSendMessage_stream now state).1
  | exchange_failed now => handleSendMessage_catch now state
  end.

Definition happenAll (l : list Happening) (state : AppState) : AppState :=
  foldl (λ state h, happen h state) state l.

Definition isToggle (h : Happening) : bool :=
  match h with
  | activity (on_event click_toggle_language) => true
  | _ => false
  end.

(** The happenings of the chat: the chat form, and the continuations of
    an exchange. *)
Definition ofChat (h : Happening) : bool :=
  match h with
  | activity (on_event (submit_chat_form _ _)) => true
  | activity (stream_chunk _ _) => true
  | stream_delivered _ => true
  | exchange_failed _ => true
  | _ => false
  end.

(** The happenings of the fabrication unit: its events and the settling of
    its requests. *)
Definition ofRecycler (h : Happening) : bool :=
  match h with
  | activity (on_event e) =>
      match e with
      | click_delete_material _ | click_get_suggestions
      | click_select_suggestion _ | click_set_difficulty _
      | click_back | click_reset | submit_add_material_form _ _ => true
      | _ => false
      end
  | activity (suggestions_settled _) => true
  | activity (steps_settled _) => true
  | _ => false
  end.

(** Who said a message, and under which id. *)
Definition speaker (m : ChatMessage.t) : string * Role :=
  (ChatMessage.id m, ChatMessage.role m).

(** The fields the fabrication unit works on, and those of the chat. *)
Definition recyclerFields (state : AppState) :=
  (materials state, suggestions state, selectedSuggestion state,
   projectData state, isLoading state, error state, difficulty state).

Definition chatFields (state : AppState) :=
  (chat state, chatMessages state, isChatLoading state).

(** Clicks on the tabs, one after the other. *)
Definition setTabs (tabs : list Tab) (state : AppState) : AppState :=
  foldl (λ state tab, handleSetTab tab state) state tabs.

(** The messages [handleSendMessage] appends for the user and in its
    [catch] block. *)
Definition userMessage (id text : string) : ChatMessage.t :=
  {| ChatMessage.id := id; ChatMessage.role := user; ChatMessage.text := text |}.

Definition errorMessage (now : N) (language : Language) : ChatMessage.t :=
  {| ChatMessage.id := "error-" +:+ timestamp now;
     ChatMessage.role := model;
     ChatMessage.text := str (t "error_chat" language) |}.

(** A suggestion as [getSuggestions] returns them, for the examples. *)
Definition waterFilter : Suggestion.t :=
  {| Suggestion.id := "s1";
     Suggestion.title := "Filter";
     Suggestion.description := "...";
     Suggestion.materials_required :=
       [{| MaterialRequired.name := "Cloth";
           MaterialRequired.quantity := Decimal false 1 0;
           MaterialRequired.unit := "units" |}];
     Suggestion.image_base64 := None |}.

(** A quantity text as the number input delivers it: empty, or a valid
    floating-point number. *)
Definition numericForm (op : MaterialOp) : bool :=
  match op with
  | AddMaterial form _ =>
      negb (Js.truthy (Form.quantity form))
      || validFloatingPointNumber (Form.quantity form)
  | DeleteMaterial _ => true
  end.

(** The happenings that assign the difficulty, the language and the tab. *)
Definition setsDifficulty (h : Happening) : bool :=
  match h with
  | activity (on_event (click_set_difficulty (Some _))) => true
  | _ => false
  end.

Definition setsTab (h : Happening) : bool :=
  match h with
  | activity (on_event (click_set_tab (Some _))) => true
  | _ => false
  end.

(** The message [initChat] opens the transcript with. *)
Definition greeting (language : Language) : ChatMessage.t :=
  {| ChatMessage.id := "initial";
     ChatMessage.role := model;
     ChatMessage.text := str (t "chatbot_greeting" language) |}.

(** A fragment that belongs to an exchange: its reply has the id that
    [handleSendMessage] gave it when the stream was delivered. *)
Definition ofExchange (h : Happening) : Prop :=
  match h with
  | activity (stream_chunk _ x) =>
      ∃ opened, modelMessageId x = timestamp opened +:+ "-model"
  | _ => True
  end.

(** The two texts the handlers assign to [state.error]. *)
Definition suggestionsFailed : string :=
  "Failed to get suggestions. Please try again.".

Definition stepsFailed : string := "Failed to get steps. Please try again.".

(** What lowers the in-flight flag of the chat: the delivery of a stream
    and the [catch] block, of whichever exchange. *)
Definition lowersChatFlag (h : Happening) : bool :=
  match h with
  | stream_delivered _ | exchange_failed _ => true
  | activity _ => false
  end.

(** A chat exchange that fails.  The [try] block of [handleSendMessage]
    holds the request, the placeholder and the loop over the fragments:
    the exchange fails before its stream is delivered ([delivered] is
    [None]), or after the stream was delivered at [opened] and [chunks]
    were read. *)
Definition failedChatMessage (inputValue : string) (sent : N)
    (delivered : option (N * list (option string))) (failed : N)
    (state : AppState) : AppState :=
  match handleSendMessage inputValue sent state with
  | (state, None) => state
  | (state, Some _) =>
      handleSendMessage_catch failed
        match delivered with
        | None => state
        | Some (opened, chunks) =>
            let '(state, x) := handleSendMessage_stream opened state in
            (handleSendMessage_chunks chunks x state).1
        end
  end.

(** ** The page and its requests *)








(** * Properties *)

(** ** No JSON text contains the opening fence *)

Section Fence.

Ltac by_cases_on a :=
  destruct a as [[] [] [] [] [] [] [] []]; vm_compute; try done.

Lemma fenceScan_Broken s : fenceScan Broken s = Broken.
Proof. induction s; simpl; auto. Qed.

Lemma fenceScan_app q s1 s2 :
  fenceScan q (s1 +:+ s2) = fenceScan (fenceScan q s1) s2.
Proof. revert q; induction s1; intros q; simpl; auto. Qed.

Lemma stripPrefix_Some pat s r :
  Js.stripPrefix pat s = Some r → s = pat +:+ r.
Proof.
  revert s; induction pat as [|a pat IH]; intros s; simpl.
  - by intros [= ->].
  - destruct s as [|b s]; [done|].
    destruct (Ascii.eqb_spec a b) as [->|]; [|done].
    intros H; rewrite (IH _ H); done.
Qed.

Lemma fenceScan_fenceOpen q : fenceScan q fenceOpen = Broken.
Proof. destruct q; reflexivity. Qed.

Lemma findAfter_fenceOpen_Broken s r q :
  Js.findAfter fenceOpen s = Some r → fenceScan q s = Broken.
Proof.
  revert q; induction s as [|a s IH]; intros q.
  - done.
  - cbn [Js.findAfter].
    destruct (Js.stripPrefix fenceOpen (String a s)) as [r'|] eqn:E.
    + intros _. apply stripPrefix_Some in E. rewrite E.
      rewrite fenceScan_app, fenceScan_fenceOpen. apply fenceScan_Broken.
    + intros H. simpl. apply IH, H.
Qed.

Lemma isWs_Clear a : Json.isWs a = true → fenceStep Clear a = Clear.
Proof. by_cases_on a. Qed.

Lemma isDigit_Clear a : Js.isDigit a = true → fenceStep Clear a = Clear.
Proof. by_cases_on a. Qed.

Lemma skipWs_scan s : fenceScan Clear (Json.skipWs s) = fenceScan Clear s.
Proof.
  induction s as [|a s IH]; [done|]. cbn [fenceScan Json.skipWs].
  destruct (Json.isWs a) eqn:E; [|done].
  by rewrite (isWs_Clear _ E).
Qed.

Lemma span_isDigit_scan s l r :
  Js.span Js.isDigit s = (l, r) → fenceScan Clear s = fenceScan Clear r.
Proof.
  revert l; induction s as [|a s IH]; intros l; cbn [fenceScan Js.span].
  - by intros [= _ <-].
  - destruct (Js.isDigit a) eqn:E.
    + destruct (Js.span Js.isDigit s) as [l' r'].
      intros [= _ <-]. rewrite (isDigit_Clear _ E). by eapply IH.
    + by intros [= _ <-].
Qed.

Lemma stripPrefix_scan pat s r :
  fenceScan Clear pat = Clear →
  Js.stripPrefix pat s = Some r → fenceScan Clear s = fenceScan Clear r.
Proof.
  intros Hpat H. apply stripPrefix_Some in H as ->.
  by rewrite fenceScan_app, Hpat.
Qed.

Lemma optSign_scan s neg r :
  optSign s = (neg, r) → fenceScan Clear s = fenceScan Clear r.
Proof.
  destruct s as [|a s]; cbn [optSign].
  - by intros [= _ <-].
  - destruct (Ascii.eqb_spec a "-") as [->|]; [by intros [= _ <-]|].
    destruct (Ascii.eqb_spec a "+") as [->|]; by intros [= _ <-].
Qed.

Lemma exponentPart_scan s e r :
  exponentPart s = Some (e, r) → fenceScan Clear s = fenceScan Clear r.
Proof.
  destruct s as [|a s]; cbn [exponentPart]; [done|].
  destruct (Ascii.eqb a "e" || Ascii.eqb a "E") eqn:Ea; [|done].
  destruct (optSign s) as [neg r1] eqn:Es.
  destruct (Js.span Js.isDigit r1) as [ds r2] eqn:Ed.
  destruct (Js.isEmpty ds); [done|]. intros [= _ <-].
  cbn [fenceScan].
  replace (fenceStep Clear a) with Clear.
  - rewrite (optSign_scan _ _ _ Es). by eapply span_isDigit_scan.
  - apply orb_true_iff in Ea as [Ea|Ea]; apply Ascii.eqb_eq in Ea as ->; done.
Qed.

Lemma parseNumber_scan s n r :
  Json.parseNumber s = Some (n, r) → fenceScan Clear s = fenceScan Clear r.
Proof.
  unfold Json.parseNumber.
  set (sg := match s with
             | "" => (false, s)
             | String a r0 => if Ascii.eqb a "-" then (true, r0) else (false, s)
             end).
  assert (Hsg : fenceScan Clear s = fenceScan Clear sg.2).
  { subst sg. destruct s as [|a s]; [done|].
    by destruct (Ascii.eqb_spec a "-") as [->|]. }
  destruct sg as [neg s1]. cbn [snd] in Hsg. rewrite Hsg.
  destruct (Js.span Js.isDigit s1) as [ip r1] eqn:Eip.
  rewrite (span_isDigit_scan _ _ _ Eip).
  destruct (negb (Json.intOk ip)); [done|].
  set (frac := match r1 with
               | "" => Some ("", r1)
               | String a r0 =>
                   if Ascii.eqb a "."
                   then let '(fp, r2) := Js.span Js.isDigit r0 in
                        if Js.isEmpty fp then None else Some (fp, r2)
                   else Some ("", r1)
               end).
  assert (Hfrac : ∀ fp r2, frac = Some (fp, r2) →
                           fenceScan Clear r1 = fenceScan Clear r2).
  { subst frac. intros fp r2. destruct r1 as [|a r0]; [by intros [= _ <-]|].
    destruct (Ascii.eqb_spec a ".") as [->|]; [|by intros [= _ <-]].
    destruct (Js.span Js.isDigit r0) as [fp' r2'] eqn:Efp.
    destruct (Js.isEmpty fp'); [done|]. intros [= _ <-].
    cbn [fenceScan]. by eapply span_isDigit_scan. }
  destruct frac as [[fp r2]|]; [|done]. rewrite (Hfrac _ _ eq_refl).
  set (ex := match r2 with
             | "" => Some (0%Z, r2)
             | String a _ =>
                 if Ascii.eqb a "e" || Ascii.eqb a "E"
                 then exponentPart r2 else Some (0%Z, r2)
             end).
  assert (Hex : ∀ e r3, ex = Some (e, r3) →
                        fenceScan Clear r2 = fenceScan Clear r3).
  { subst ex. intros e r3. destruct r2 as [|a r0]; [by intros [= _ <-]|].
    destruct (Ascii.eqb a "e" || Ascii.eqb a "E"); [|by intros [= _ <-]].
    apply exponentPart_scan. }
  destruct ex as [[e r3]|]; [|done]. intros [= _ <-]. by eapply Hex.
Qed.

Lemma step_DQ q : q ≠ Broken → fenceStep q Js.DQ = Clear.
Proof. by destruct q. Qed.

Lemma step_hexDigit q a n : Json.hexDigit a = Some n → fenceStep q a = q.
Proof. destruct q; by_cases_on a. Qed.

Lemma step_simpleEscape q a u :
  Json.simpleEscape a = Some u → q ≠ Broken → fenceStep q a ≠ Broken.
Proof. destruct q; by_cases_on a. Qed.

Lemma step_plain q a :
  (Js.code a <? 32)%N = false → q ≠ Broken → fenceStep q a ≠ Broken.
Proof. destruct q; by_cases_on a. Qed.

Lemma hex4_Some a b c d u :
  Json.hex4 a b c d = Some u →
  is_Some (Json.hexDigit a) ∧ is_Some (Json.hexDigit b) ∧
  is_Some (Json.hexDigit c) ∧ is_Some (Json.hexDigit d).
Proof.
  unfold Json.hex4.
  destruct (Json.hexDigit a), (Json.hexDigit b), (Json.hexDigit c),
    (Json.hexDigit d); try done; eauto 10.
Qed.

Lemma stringBody_scan n : ∀ s q ps r,
  (String.length s ≤ n)%nat → q ≠ Broken →
  Json.stringBody s = Some (ps, r) → fenceScan q s = fenceScan Clear r.
Proof.
  induction n as [|n IH]; intros s q ps r Hlen Hq.
  { destruct s; [done|simpl in Hlen; lia]. }
  destruct s as [|a s]; [done|]. cbn [Json.stringBody fenceScan].
  cbn [String.length] in Hlen.
  destruct (Ascii.eqb_spec a Js.DQ) as [->|Hdq].
  { intros [= _ <-]. by rewrite step_DQ. }
  destruct (Ascii.eqb_spec a Js.BACKSLASH) as [->|Hbs].
  - replace (fenceStep q Js.BACKSLASH) with q by (by destruct q).
    destruct s as [|e s]; [done|]. cbn [String.length] in Hlen.
    destruct (Ascii.eqb_spec e "u") as [->|Hu].
    + destruct s as [|h1 [|h2 [|h3 [|h4 s]]]]; try done.
      destruct (Json.hex4 h1 h2 h3 h4) as [u|] eqn:Eh; [|done].
      apply hex4_Some in Eh as ([? H1] & [? H2] & [? H3] & [? H4]).
      destruct (Json.stringBody s) as [[ps' rest]|] eqn:Eb; [|done].
      intros [= _ <-]. cbn [fenceScan].
      replace (fenceStep q "u") with q by (by destruct q).
      rewrite (step_hexDigit _ _ _ H1), (step_hexDigit _ _ _ H2),
        (step_hexDigit _ _ _ H3), (step_hexDigit _ _ _ H4).
      eapply IH; [|done|done]. cbn [String.length] in Hlen. lia.
    + destruct (Json.simpleEscape e) as [u|] eqn:Ee; [|done].
      destruct (Json.stringBody s) as [[ps' rest]|] eqn:Eb; [|done].
      intros [= _ <-]. cbn [fenceScan].
      eapply IH; [lia| |done]. by eapply step_simpleEscape.
  - destruct (Js.code a <? 32)%N eqn:Ec; [done|].
    destruct (Json.stringBody s) as [[ps' rest]|] eqn:Eb; [|done].
    intros [= _ <-]. eapply IH; [lia| |done]. by apply step_plain.
Qed.

Lemma parseString_scan s str r :
  Json.parseString s = Some (str, r) →
  fenceScan Clear s = fenceScan Clear r.
Proof.
  unfold Json.parseString.
  destruct (Json.stringBody s) as [[ps rest]|] eqn:E; [|done].
  intros [= _ <-]. by eapply stringBody_scan.
Qed.

Ltac step_clear :=
  cbn [fenceScan];
  match goal with
  | |- context [fenceStep Clear ?a] => change (fenceStep Clear a) with Clear
  end.

Lemma parse_scan fuel :
  (∀ s v r, Json.parseValue fuel s = Some (v, r) →
            fenceScan Clear s = fenceScan Clear r)
  ∧ (∀ s vs r, Json.parseElements fuel s = Some (vs, r) →
               fenceScan Clear s = fenceScan Clear r)
  ∧ (∀ s ms r, Json.parseMembers fuel s = Some (ms, r) →
               fenceScan Clear s = fenceScan Clear r).
Proof.
  induction fuel as [|fuel (IHv & IHe & IHm)]; [done|].
  split_and!.
  - intros s v r. cbn [Json.parseValue]. rewrite <- (skipWs_scan s).
    destruct (Json.skipWs s) as [|a r0]; [done|].
    destruct (Ascii.eqb_spec a "{") as [->|_].
    { cbn [fenceScan]. change (fenceStep Clear "{") with Clear.
      destruct (Json.skipWs r0) as [|b r1] eqn:E0; [done|].
      destruct (Ascii.eqb_spec b "}") as [->|_].
      { intros [= _ <-]. by rewrite <- (skipWs_scan r0), E0. }
      destruct (Json.parseMembers fuel r0) as [[ms rest]|] eqn:E; [|done].
      intros [= _ <-]. by eapply IHm. }
    destruct (Ascii.eqb_spec a "[") as [->|_].
    { cbn [fenceScan]. change (fenceStep Clear "[") with Clear.
      destruct (Json.skipWs r0) as [|b r1] eqn:E0; [done|].
      destruct (Ascii.eqb_spec b "]") as [->|_].
      { intros [= _ <-]. by rewrite <- (skipWs_scan r0), E0. }
      destruct (Json.parseElements fuel r0) as [[vs rest]|] eqn:E; [|done].
      intros [= _ <-]. by eapply IHe. }
    destruct (Ascii.eqb_spec a Js.DQ) as [->|_].
    { destruct (Json.parseString r0) as [[str rest]|] eqn:E; [|done].
      intros [= _ <-]. cbn [fenceScan].
      change (fenceStep Clear Js.DQ) with Clear.
      by eapply parseString_scan. }
    destruct (Js.stripPrefix "true" _) as [rest|] eqn:Et.
    { intros [= _ <-]. by apply (stripPrefix_scan "true"). }
    destruct (Js.stripPrefix "false" _) as [rest|] eqn:Ef.
    { intros [= _ <-]. by apply (stripPrefix_scan "false"). }
    destruct (Js.stripPrefix "null" _) as [rest|] eqn:En.
    { intros [= _ <-]. by apply (stripPrefix_scan "null"). }
    destruct (Json.parseNumber _) as [[n rest]|] eqn:E; [|done].
    intros [= _ <-]. by eapply parseNumber_scan.
  - intros s vs r. cbn [Json.parseElements].
    destruct (Json.parseValue fuel s) as [[v r0]|] eqn:Ev; [|done].
    rewrite (IHv _ _ _ Ev), <- (skipWs_scan r0).
    destruct (Json.skipWs r0) as [|c r1]; [done|].
    destruct (Ascii.eqb_spec c ",") as [->|_].
    { destruct (Json.parseElements fuel r1) as [[vs' rest]|] eqn:E; [|done].
      intros [= _ <-]. step_clear. by eapply IHe. }
    destruct (Ascii.eqb_spec c "]") as [->|_]; [|done].
    by intros [= _ <-].
  - intros s ms r. cbn [Json.parseMembers]. rewrite <- (skipWs_scan s).
    destruct (Json.skipWs s) as [|q r0]; [done|].
    destruct (Ascii.eqb_spec q Js.DQ) as [->|_]; [|done].
    destruct (Json.parseString r0) as [[k r1]|] eqn:Ek; [|done].
    cbn [fenceScan]. change (fenceStep Clear Js.DQ) with Clear.
    rewrite (parseString_scan _ _ _ Ek), <- (skipWs_scan r1).
    destruct (Json.skipWs r1) as [|c r2]; [done|].
    destruct (Ascii.eqb_spec c ":") as [->|_]; [|done].
    destruct (Json.parseValue fuel r2) as [[v r3]|] eqn:Ev; [|done].
    cbn [fenceScan]. change (fenceStep Clear ":") with Clear.
    rewrite (IHv _ _ _ Ev), <- (skipWs_scan r3).
    destruct (Json.skipWs r3) as [|d r4]; [done|].
    destruct (Ascii.eqb_spec d ",") as [->|_].
    { destruct (Json.parseMembers fuel r4) as [[ms' rest]|] eqn:E; [|done].
      intros [= _ <-]. step_clear. by eapply IHm. }
    destruct (Ascii.eqb_spec d "}") as [->|_]; [|done].
    by intros [= _ <-].
Qed.

(** The text of a JSON value leaves the scan clear. *)
Lemma parse_Clear s v : Json.parse s = Some v → fenceScan Clear s = Clear.
Proof.
  unfold Json.parse.
  destruct (Json.parseValue _ s) as [[v' rest]|] eqn:E; [|done].
  destruct (Js.isEmpty (Json.skipWs rest)) eqn:Er; [|done]. intros _.
  destruct (parse_scan (S (String.length s))) as (Hv & _ & _).
  rewrite (Hv _ _ _ E), <- skipWs_scan.
  by destruct (Json.skipWs rest).
Qed.

(** A text [JSON.parse] accepts has no fenced block for the regular
    expression of [parseJsonResponse] to find. *)
Lemma parse_fenceMatch_None s v :
  Json.parse s = Some v → fenceMatch s = None.
Proof.
  intros Hp. unfold fenceMatch.
  destruct (Js.findAfter fenceOpen s) as [after|] eqn:E; [|done].
  apply (findAfter_fenceOpen_Broken _ _ Clear) in E.
  rewrite (parse_Clear _ _ Hp) in E. done.
Qed.

End Fence.

(** ** The fuel of the parser is enough *)

Section Fuel.

#[local] Open Scope nat_scope.

Lemma skipWs_length s : String.length (Json.skipWs s) ≤ String.length s.
Proof.
  induction s as [|a s IH]; [done|]. cbn [Json.skipWs].
  destruct (Json.isWs a); cbn [String.length]; lia.
Qed.

Lemma skipWs_cons_length s a r : Json.skipWs s = String a r → String.length r < String.length s.
Proof.
  intros H. pose proof (skipWs_length s) as Hl. rewrite H in Hl.
  cbn [String.length] in Hl. lia.
Qed.

Lemma stripPrefix_length pat : ∀ s r,
  Js.stripPrefix pat s = Some r → String.length s = String.length pat + String.length r.
Proof.
  induction pat as [|a pat IH]; intros s r; cbn [Js.stripPrefix].
  - by intros [= ->].
  - destruct s as [|b s]; [done|]. destruct (Ascii.eqb a b); [|done].
    intros H. cbn [String.length]. by rewrite (IH _ _ H).
Qed.

Lemma span_length p s l r : Js.span p s = (l, r) → String.length s = String.length l + String.length r.
Proof.
  revert l; induction s as [|a s IH]; intros l; cbn [Js.span].
  - by intros [= <- <-].
  - destruct (p a); [|by intros [= <- <-]].
    destruct (Js.span p s) as [l' r']. intros [= <- <-].
    cbn [String.length]. by rewrite (IH _ eq_refl).
Qed.

Lemma optSign_length s neg r : optSign s = (neg, r) → String.length r ≤ String.length s.
Proof.
  destruct s as [|a s]; cbn [optSign]; [by intros [= _ <-]|].
  destruct (Ascii.eqb a "-"); [intros [= _ <-]; cbn; lia|].
  destruct (Ascii.eqb a "+"); intros [= _ <-]; cbn; lia.
Qed.

Lemma exponentPart_length s e r : exponentPart s = Some (e, r) → String.length r < String.length s.
Proof.
  destruct s as [|a s]; cbn [exponentPart]; [done|].
  destruct (Ascii.eqb a "e" || Ascii.eqb a "E"); [|done].
  destruct (optSign s) as [neg r1] eqn:Es.
  destruct (Js.span Js.isDigit r1) as [ds r2] eqn:Ed.
  destruct (Js.isEmpty ds); [done|]. intros [= _ <-].
  apply optSign_length in Es. apply span_length in Ed.
  cbn [String.length]. lia.
Qed.

Lemma parseNumber_length s n r : Json.parseNumber s = Some (n, r) → String.length r < String.length s.
Proof.
  unfold Json.parseNumber.
  set (sg := match s with
             | "" => (false, s)
             | String a r0 => if Ascii.eqb a "-" then (true, r0) else (false, s)
             end).
  assert (Hsg : String.length sg.2 ≤ String.length s).
  { subst sg. destruct s as [|a s]; [done|].
    destruct (Ascii.eqb a "-"); cbn; lia. }
  destruct sg as [neg s1]. cbn [snd] in Hsg.
  destruct (Js.span Js.isDigit s1) as [ip r1] eqn:Eip.
  apply span_length in Eip.
  destruct ip as [|d ip]; [done|]. cbn [String.length] in Eip.
  destruct (negb (Json.intOk (String d ip))); [done|].
  set (frac := match r1 with
               | "" => Some ("", r1)
               | String a r0 =>
                   if Ascii.eqb a "."
                   then let '(fp, r2) := Js.span Js.isDigit r0 in
                        if Js.isEmpty fp then None else Some (fp, r2)
                   else Some ("", r1)
               end).
  assert (Hfrac : ∀ fp r2, frac = Some (fp, r2) → String.length r2 ≤ String.length r1).
  { subst frac. intros fp r2. destruct r1 as [|a r0]; [by intros [= _ <-]|].
    destruct (Ascii.eqb a "."); [|by intros [= _ <-]].
    destruct (Js.span Js.isDigit r0) as [fp' r2'] eqn:Efp.
    destruct (Js.isEmpty fp'); [done|]. intros [= _ <-].
    apply span_length in Efp. cbn [String.length]. lia. }
  destruct frac as [[fp r2]|]; [|done]. specialize (Hfrac _ _ eq_refl).
  set (ex := match r2 with
             | "" => Some (0%Z, r2)
             | String a _ =>
                 if Ascii.eqb a "e" || Ascii.eqb a "E"
                 then exponentPart r2 else Some (0%Z, r2)
             end).
  assert (Hex : ∀ e r3, ex = Some (e, r3) → String.length r3 ≤ String.length r2).
  { subst ex. intros e r3. destruct r2 as [|a r0]; [by intros [= _ <-]|].
    destruct (Ascii.eqb a "e" || Ascii.eqb a "E"); [|by intros [= _ <-]].
    intros H. apply exponentPart_length in H. lia. }
  destruct ex as [[e r3]|]; [|done]. intros [= _ <-].
  specialize (Hex _ _ eq_refl). lia.
Qed.

Lemma stringBody_length n : ∀ s ps r,
  String.length s ≤ n → Json.stringBody s = Some (ps, r) → String.length r < String.length s.
Proof.
  induction n as [|n IH]; intros s ps r Hlen.
  { destruct s; [done|cbn in Hlen; lia]. }
  destruct s as [|a s]; [done|]. cbn [Json.stringBody String.length] in *.
  destruct (Ascii.eqb a Js.DQ); [intros [= _ <-]; lia|].
  destruct (Ascii.eqb a Js.BACKSLASH).
  - destruct s as [|e s]; [done|]. cbn [String.length] in *.
    destruct (Ascii.eqb e "u").
    + destruct s as [|h1 [|h2 [|h3 [|h4 s]]]]; try done.
      destruct (Json.hex4 h1 h2 h3 h4); [|done].
      destruct (Json.stringBody s) as [[ps' rest]|] eqn:Eb; [|done].
      intros [= _ <-]. cbn [String.length] in *.
      apply IH in Eb; lia.
    + destruct (Json.simpleEscape e); [|done].
      destruct (Json.stringBody s) as [[ps' rest]|] eqn:Eb; [|done].
      intros [= _ <-]. apply IH in Eb; lia.
  - destruct (Js.code a <? 32)%N; [done|].
    destruct (Json.stringBody s) as [[ps' rest]|] eqn:Eb; [|done].
    intros [= _ <-]. apply IH in Eb; lia.
Qed.

Lemma parseString_length s str r :
  Json.parseString s = Some (str, r) → String.length r < String.length s.
Proof.
  unfold Json.parseString.
  destruct (Json.stringBody s) as [[ps rest]|] eqn:E; [|done].
  intros [= _ <-]. by eapply stringBody_length.
Qed.

Ltac use_equations :=
  repeat match goal with
    | H : ?x = _ |- context [?x] => rewrite H
    | H : ∀ f, _ ≤ f → Json.parseValue f ?s = _
      |- context [Json.parseValue ?f0 ?s] => rewrite (H f0) by lia
    | H : ∀ f, _ ≤ f → Json.parseElements f ?s = _
      |- context [Json.parseElements ?f0 ?s] => rewrite (H f0) by lia
    | H : ∀ f, _ ≤ f → Json.parseMembers f ?s = _
      |- context [Json.parseMembers ?f0 ?s] => rewrite (H f0) by lia
    end.

Ltac replay :=
  split; [lia|]; intros [|f0] Hf; [lia|];
  cbn [Json.parseValue Json.parseElements Json.parseMembers];
  use_equations; done.

(** A successful parse consumes at least one character, and succeeds with
    the same result on any fuel that is at least the number of characters
    it consumes. *)
Lemma parse_fuel fuel :
  (∀ s v r, Json.parseValue fuel s = Some (v, r) →
     String.length r < String.length s
     ∧ ∀ f, String.length s - String.length r ≤ f →
            Json.parseValue f s = Some (v, r))
  ∧ (∀ s vs r, Json.parseElements fuel s = Some (vs, r) →
       String.length r < String.length s
       ∧ ∀ f, String.length s - String.length r ≤ f →
              Json.parseElements f s = Some (vs, r))
  ∧ (∀ s ms r, Json.parseMembers fuel s = Some (ms, r) →
       String.length r < String.length s
       ∧ ∀ f, String.length s - String.length r ≤ f →
              Json.parseMembers f s = Some (ms, r)).
Proof.
  induction fuel as [|fuel (IHv & IHe & IHm)]; [done|].
  split_and!.
  - intros s v r. cbn [Json.parseValue].
    destruct (Json.skipWs s) as [|a r0] eqn:E0; [done|].
    pose proof (skipWs_cons_length _ _ _ E0) as L0.
    destruct (Ascii.eqb a "{") eqn:Eo.
    { destruct (Json.skipWs r0) as [|b r1] eqn:E1; [done|].
      pose proof (skipWs_cons_length _ _ _ E1) as L1.
      destruct (Ascii.eqb b "}") eqn:Ec; [intros [= <- <-]; replay|].
      destruct (Json.parseMembers fuel r0) as [[ms rest]|] eqn:E; [|done].
      intros [= <- <-]. destruct (IHm _ _ _ E) as [L F]. replay. }
    destruct (Ascii.eqb a "[") eqn:Ea.
    { destruct (Json.skipWs r0) as [|b r1] eqn:E1; [done|].
      pose proof (skipWs_cons_length _ _ _ E1) as L1.
      destruct (Ascii.eqb b "]") eqn:Ec; [intros [= <- <-]; replay|].
      destruct (Json.parseElements fuel r0) as [[vs rest]|] eqn:E; [|done].
      intros [= <- <-]. destruct (IHe _ _ _ E) as [L F]. replay. }
    destruct (Ascii.eqb a Js.DQ) eqn:Eq.
    { destruct (Json.parseString r0) as [[str rest]|] eqn:E; [|done].
      intros [= <- <-]. apply parseString_length in E as L. replay. }
    destruct (Js.stripPrefix "true" _) as [rest|] eqn:Et.
    { intros [= <- <-]. apply stripPrefix_length in Et as L.
      cbn [String.length] in L. replay. }
    destruct (Js.stripPrefix "false" _) as [rest|] eqn:Ef.
    { intros [= <- <-]. apply stripPrefix_length in Ef as L.
      cbn [String.length] in L. replay. }
    destruct (Js.stripPrefix "null" _) as [rest|] eqn:En.
    { intros [= <- <-]. apply stripPrefix_length in En as L.
      cbn [String.length] in L. replay. }
    destruct (Json.parseNumber _) as [[n rest]|] eqn:E; [|done].
    intros [= <- <-]. apply parseNumber_length in E as L.
    cbn [String.length] in L. replay.
  - intros s vs r. cbn [Json.parseElements].
    destruct (Json.parseValue fuel s) as [[v r0]|] eqn:Ev; [|done].
    destruct (IHv _ _ _ Ev) as [Lv Fv].
    destruct (Json.skipWs r0) as [|c r1] eqn:E1; [done|].
    pose proof (skipWs_cons_length _ _ _ E1) as L1.
    destruct (Ascii.eqb c ",") eqn:Ec.
    { destruct (Json.parseElements fuel r1) as [[vs' rest]|] eqn:E; [|done].
      intros [= <- <-]. destruct (IHe _ _ _ E) as [L F]. replay. }
    destruct (Ascii.eqb c "]") eqn:Ed; [|done].
    intros [= <- <-]. replay.
  - intros s ms r. cbn [Json.parseMembers].
    destruct (Json.skipWs s) as [|q r0] eqn:E0; [done|].
    pose proof (skipWs_cons_length _ _ _ E0) as L0.
    destruct (Ascii.eqb q Js.DQ) eqn:Eq; [|done].
    destruct (Json.parseString r0) as [[k r1]|] eqn:Ek; [|done].
    apply parseString_length in Ek as Lk.
    destruct (Json.skipWs r1) as [|c r2] eqn:E1; [done|].
    pose proof (skipWs_cons_length _ _ _ E1) as L1.
    destruct (Ascii.eqb c ":") eqn:Ec; [|done].
    destruct (Json.parseValue fuel r2) as [[v r3]|] eqn:Ev; [|done].
    destruct (IHv _ _ _ Ev) as [Lv Fv].
    destruct (Json.skipWs r3) as [|d r4] eqn:E3; [done|].
    pose proof (skipWs_cons_length _ _ _ E3) as L3.
    destruct (Ascii.eqb d ",") eqn:Ed.
    { destruct (Json.parseMembers fuel r4) as [[ms' rest]|] eqn:E; [|done].
      intros [= <- <-]. destruct (IHm _ _ _ E) as [L F]. replay. }
    destruct (Ascii.eqb d "}") eqn:Ee; [|done].
    intros [= <- <-]. replay.
Qed.

(** The fuel [Json.parse] gives is enough: more fuel changes nothing. *)
Theorem parse_fuel_enough s fuel :
  S (String.length s) ≤ fuel →
  Json.parseValue fuel s = Json.parseValue (S (String.length s)) s.
Proof.
  intros Hf.
  destruct (Json.parseValue fuel s) as [[v r]|] eqn:E1.
  - destruct (parse_fuel fuel) as (Hv & _ & _).
    destruct (Hv _ _ _ E1) as [_ F]. symmetry. apply F. lia.
  - destruct (Json.parseValue (S (String.length s)) s) as [[v r]|] eqn:E2;
      [|done].
    destruct (parse_fuel (S (String.length s))) as (Hv & _ & _).
    destruct (Hv _ _ _ E2) as [_ F]. rewrite F in E1 by lia. done.
Qed.

End Fuel.

(** ** The JSON extraction helper *)

(** C2. For every raw text payload the helper gives what the order of the
    specification gives: the direct parse of the whole payload when that
    succeeds, otherwise the parse of the contents of the fenced block when
    there is one and it parses, otherwise the parse failure.  The source
    looks for the fence first, which cannot be told apart: a payload that is
    valid JSON holds no fenced block ([parse_fenceMatch_None]). *)
Theorem parseJsonResponse_direct_then_fenced (jsonString : string) :
  parseJsonResponse jsonString = parseJsonResponse_spec jsonString.
Proof.
  unfold parseJsonResponse, parseJsonResponse_spec.
  destruct (Json.parse jsonString) as [v|] eqn:Ep.
  - by rewrite (parse_fenceMatch_None _ _ Ep).
  - destruct (fenceMatch jsonString) as [[|a block]|]; done.
Qed.

(** A payload that is itself valid JSON is returned by the direct parse. *)
Corollary parseJsonResponse_valid_json jsonString v :
  Json.parse jsonString = Some v → parseJsonResponse jsonString = Ok v.
Proof.
  intros H. unfold parseJsonResponse.
  by rewrite (parse_fenceMatch_None _ _ H), H.
Qed.

(** A payload wrapped in a fenced block is parsed like the bare payload. *)
Example parseJsonResponse_fenced :
  parseJsonResponse ("Here you go:" +:+ fenceOpen +:+ "[1, 2]" +:+ fenceClose)
  = parseJsonResponse "[1, 2]".
Proof. vm_compute. reflexivity. Qed.

Example parseJsonResponse_invalid :
  parseJsonResponse "not json" = Throw invalidJson.
Proof. vm_compute. reflexivity. Qed.

(** ** Empty responses *)

Section Trim.

Ltac by_cases_on a :=
  destruct a as [[] [] [] [] [] [] [] []]; vm_compute; try done.

Lemma ws2_not_ws1 a b : Js.ws2 a b = true → Js.ws1 a = false.
Proof. unfold Js.ws2. by_cases_on a. Qed.

Lemma ws3_not_ws1 a b c : Js.ws3 a b c = true → Js.ws1 a = false.
Proof. unfold Js.ws3. by_cases_on a. Qed.

Lemma ws3_not_ws2 a b c : Js.ws3 a b c = true → Js.ws2 a b = false.
Proof. unfold Js.ws3, Js.ws2. by_cases_on a. Qed.

Lemma trimStart_WhiteSpaceOnly s : Js.WhiteSpaceOnly s → Js.trimStart s = "".
Proof.
  induction 1 as [|a s Ha _ IH|a b s Hab _ IH|a b c s Habc _ IH];
    cbn [Js.trimStart].
  - done.
  - by rewrite Ha.
  - by rewrite (ws2_not_ws1 _ _ Hab), Hab.
  - by rewrite (ws3_not_ws1 _ _ _ Habc), (ws3_not_ws2 _ _ _ Habc), Habc.
Qed.

Lemma trim_WhiteSpaceOnly s : Js.WhiteSpaceOnly s → Js.trim s = "".
Proof. intros H. unfold Js.trim. by rewrite trimStart_WhiteSpaceOnly. Qed.

End Trim.

(** C8.  For every model response whose text is absent, empty or white
    space only, [getSuggestions] and [getSteps] raise their empty-response
    error; no value is returned. *)
Theorem empty_response_raises
    (text : option string) (images : nat → option string) :
  match text with Some s => Js.WhiteSpaceOnly s | None => True end →
  getSuggestions text images =
    Throw (Error "Received an empty response from the model when fetching suggestions.")
  ∧ getSteps text =
    Throw (Error "Received an empty response from the model when fetching project steps.").
Proof.
  intros H. unfold getSuggestions, getSteps, responseText.
  destruct text as [s|]; [|done].
  cbn [fmap option_fmap option_map]. by rewrite (trim_WhiteSpaceOnly _ H).
Qed.

Lemma empty_response_raises_witness :
  getSuggestions (Some (" " +:+ String Js.LF "  ")) (λ _, None) =
    Throw (Error "Received an empty response from the model when fetching suggestions.")
  ∧ getSteps (Some (" " +:+ String Js.LF "  ")) =
    Throw (Error "Received an empty response from the model when fetching project steps.").
Proof.
  apply (empty_response_raises (Some (" " +:+ String Js.LF "  "))).
  simpl. repeat constructor.
Defined.

(** A no-break space in front and an em space (U+2003) behind are
    trimmed like the spaces of Basic Latin. *)
Example trim_examples :
  Js.trim (String "194" (String "160" " a b")
           +:+ String "226" (String "128" (String "131" (String Js.LF ""))))
  = "a b"
  ∧ Js.trim "  " = ""
  ∧ Js.trim " [1] " = "[1]".
Proof. by vm_compute. Qed.

Example empty_response_examples :
  getSteps None = getSteps (Some "")
  ∧ getSteps (Some "") =
    Throw (Error "Received an empty response from the model when fetching project steps.")
  ∧ getSuggestions (Some "   ") (λ _, Some "aGVsbG8=") =
    Throw (Error "Received an empty response from the model when fetching suggestions.").
Proof. by vm_compute. Qed.

(** A schema-conforming array yields its suggestions; a suggestion whose
    image request fails is kept without an image. *)
Example getSuggestions_one_suggestion :
  getSuggestions (Some oneSuggestion) (λ _, None)
  = Ok [{| Suggestion.id := "s1";
           Suggestion.title := "Filter";
           Suggestion.description := "...";
           Suggestion.materials_required :=
             [{| MaterialRequired.name := "Cloth";
                 MaterialRequired.quantity := Decimal false 1 0;
                 MaterialRequired.unit := "units" |}];
           Suggestion.image_base64 := None |}]
  ∧ Suggestion.image_base64 <$>
      default [] (match getSuggestions (Some oneSuggestion) (λ _, Some "/9j/4AAQ") with
                  | Ok l => Some l
                  | _ => None
                  end)
    = [Some "/9j/4AAQ"].
Proof. by vm_compute. Qed.


(** ** The order of the steps *)

Section Steps.

Lemma insertStep_Permutation x l : insertStep x l ≡ₚ x :: l.
Proof.
  induction l as [|y l IH]; [done|]. cbn [insertStep].
  destruct (Step.step x <=? Step.step y)%Z; [done|].
  rewrite IH. apply Permutation_swap.
Qed.

Lemma sortSteps_Permutation l : sortSteps l ≡ₚ l.
Proof.
  induction l as [|x l IH]; [done|].
  unfold sortSteps in *. cbn [foldr]. by rewrite insertStep_Permutation, IH.
Qed.

Lemma insertStep_StronglySorted x l :
  StronglySorted stepLe l → StronglySorted stepLe (insertStep x l).
Proof.
  induction 1 as [|y l Hs IH Hy]; cbn [insertStep].
  - repeat constructor.
  - destruct (Z.leb_spec (Step.step x) (Step.step y)) as [Hle|Hlt].
    + constructor; [by constructor|]. constructor; [done|].
      eapply Forall_impl; [exact Hy|]. unfold stepLe. intros; lia.
    + constructor; [done|].
      rewrite insertStep_Permutation. constructor; [|done].
      unfold stepLe. lia.
Qed.

Lemma sortSteps_StronglySorted l : StronglySorted stepLe (sortSteps l).
Proof.
  induction l as [|x l IH]; [constructor|].
  by apply insertStep_StronglySorted.
Qed.

(** Steps with the same number keep the order they came in. *)
Lemma insertStep_filter k x l :
  StronglySorted stepLe l →
  filter (λ a, Step.step a = k) (insertStep x l)
  = filter (λ a, Step.step a = k) (x :: l).
Proof.
  induction 1 as [|y l Hs IH Hy]; [done|]. cbn [insertStep].
  destruct (Z.leb_spec (Step.step x) (Step.step y)) as [Hle|Hlt]; [done|].
  rewrite filter_cons, IH, !filter_cons.
  destruct (decide (Step.step y = k)) as [Hyk|]; [|done].
  destruct (decide (Step.step x = k)) as [Hxk|]; [lia|done].
Qed.

Lemma sortSteps_stable k l :
  filter (λ a, Step.step a = k) (sortSteps l)
  = filter (λ a, Step.step a = k) l.
Proof.
  induction l as [|x l IH]; [done|].
  unfold sortSteps in *. cbn [foldr].
  rewrite insertStep_filter by apply sortSteps_StronglySorted.
  by rewrite !filter_cons, IH.
Qed.

Lemma bind_Ok {A B} (r : result A) (k : A → result B) b :
  r ≫= k = Ok b → ∃ a, r = Ok a ∧ k a = Ok b.
Proof. destruct r; [eauto|done|done]. Qed.

End Steps.

(** C3, as the code has it.  For every ProjectData value returned by
    [getSteps], the steps are the steps of the payload sorted ascending by
    their step field: the numbers never decrease along the list, no step is
    lost or added, and steps that share a number are all kept, in the order
    they were received. *)
Theorem getSteps_sorts_steps (text : option string) (data : ProjectData.t) :
  getSteps text = Ok data →
  StronglySorted stepLe (ProjectData.steps data)
  ∧ ∃ responseText parsed received,
      Js.trim <$> text = Some responseText
      ∧ parseJsonResponse responseText = Ok parsed
      ∧ Typed.asProjectData parsed = Some received
      ∧ ProjectData.steps data ≡ₚ ProjectData.steps received
      ∧ ∀ k, filter (λ a, Step.step a = k) (ProjectData.steps data)
             = filter (λ a, Step.step a = k) (ProjectData.steps received).
Proof.
  unfold getSteps. intros H.
  apply bind_Ok in H as (txt & Htxt & H).
  apply bind_Ok in H as (parsed & Hparsed & H).
  apply bind_Ok in H as (received & Hrec & [= <-]).
  cbn [ProjectData.steps]. split; [apply sortSteps_StronglySorted|].
  exists txt, parsed, received. split_and!.
  - unfold responseText in Htxt. destruct (Js.trim <$> text) as [t0|]; [|done].
    destruct (Js.truthy t0); [|done]. by injection Htxt as ->.
  - done.
  - unfold typed in Hrec. by destruct (Typed.asProjectData parsed) as [?|]; [injection Hrec as ->|].
  - apply sortSteps_Permutation.
  - intros k. apply sortSteps_stable.
Qed.

Example getSteps_out_of_order :
  getSteps (Some stepsOutOfOrder) = Ok stepsOutOfOrder_sorted.
Proof. vm_compute. reflexivity. Qed.

Lemma getSteps_sorts_steps_witness :
  StronglySorted stepLe (ProjectData.steps stepsOutOfOrder_sorted)
  ∧ ∃ responseText parsed received,
      Js.trim <$> Some stepsOutOfOrder = Some responseText
      ∧ parseJsonResponse responseText = Ok parsed
      ∧ Typed.asProjectData parsed = Some received
      ∧ ProjectData.steps stepsOutOfOrder_sorted ≡ₚ ProjectData.steps received
      ∧ ∀ k, filter (λ a, Step.step a = k) (ProjectData.steps stepsOutOfOrder_sorted)
             = filter (λ a, Step.step a = k) (ProjectData.steps received).
Proof.
  apply (getSteps_sorts_steps (Some stepsOutOfOrder)).
  vm_compute. reflexivity.
Defined.

(** C3 as stated fails: two steps with the same number are both returned,
    so the step numbers are not strictly increasing. *)
Lemma equal_step_numbers_are_kept :
  ∃ data,
    getSteps (Some (doubleQuoted "{'total_power_consumption_kwh': 1, 'power_consumption_breakdown': [], 'steps': [{'step': 1, 'title': 'Cut', 'description': ''}, {'step': 1, 'title': 'Weld', 'description': ''}]}"))
    = Ok data
    ∧ Step.step <$> ProjectData.steps data = [1; 1]%Z
    ∧ ¬ Sorted Z.lt (Step.step <$> ProjectData.steps data).
Proof.
  eexists. split; [vm_compute; reflexivity|]. split; [done|].
  cbn. intros H. inversion H as [|? ? _ Hd]. inversion Hd. lia.
Qed.

(** ** The translation lookup *)

Section Translations.

Lemma lower_idemp a : Js.lower (Js.lower a) = Js.lower a.
Proof. destruct a as [[] [] [] [] [] [] [] []]; by vm_compute. Qed.

Lemma toLowerCase_idemp s :
  Js.toLowerCase (Js.toLowerCase s) = Js.toLowerCase s.
Proof. induction s as [|a s IH]; [done|]. cbn. by rewrite lower_idemp, IH. Qed.

End Translations.

(** C10, as the code has it.  For every key of Basic Latin characters,
    the lookup lower-cases the key: when the lower-cased key is a key of
    the table, [t] returns its localized string, the same for the key and
    for its lower-cased form (so [Easy] gets the string of [easy]); when it
    is no property of the table at all, [t] returns the key in its
    original form, and the lower-cased key for the lower-cased key, which
    differ when the key has a capital letter. *)
Theorem t_lowercases_key (key : string) (language : Language) :
  Js.basicLatin key = true →
  match translations !! Js.toLowerCase key with
  | Some entry =>
      t key language = Some (entryGet entry language)
      ∧ t (Js.toLowerCase key) language = t key language
  | None =>
      if inheritedName (Js.toLowerCase key) then True
      else t key language = Some key
           ∧ t (Js.toLowerCase key) language = Some (Js.toLowerCase key)
  end.
Proof.
  intros _. unfold t, translationsGet. rewrite toLowerCase_idemp.
  destruct (translations !! Js.toLowerCase key) as [entry|]; [done|].
  by destruct (inheritedName (Js.toLowerCase key)).
Qed.

Lemma t_lowercases_key_witness :
  match translations !! Js.toLowerCase "Easy" with
  | Some entry =>
      t "Easy" ar = Some (entryGet entry ar)
      ∧ t (Js.toLowerCase "Easy") ar = t "Easy" ar
  | None =>
      if inheritedName (Js.toLowerCase "Easy") then True
      else t "Easy" ar = Some "Easy"
           ∧ t (Js.toLowerCase "Easy") ar = Some (Js.toLowerCase "Easy")
  end.
Proof. apply (t_lowercases_key "Easy" ar). reflexivity. Defined.

(** The two names the table object inherits are truthy without being
    entries. *)
Lemma t_inherited_name (key : string) (language : Language) :
  inheritedName (Js.toLowerCase key) = true → t key language = None.
Proof.
  intros H. unfold t, translationsGet.
  destruct (translations !! Js.toLowerCase key) as [entry|] eqn:E.
  - exfalso. unfold inheritedName in H.
    apply orb_true_iff in H as [H|H]; apply bool_decide_eq_true in H;
      rewrite H in E; vm_compute in E; discriminate.
  - by rewrite H.
Qed.

(** C10 as stated fails: an unknown key with a capital letter and its
    lower-cased form are each returned unchanged, hence differ. *)
Lemma t_unknown_key_differs :
  t "Foo" en = Some "Foo"
  ∧ t (Js.toLowerCase "Foo") en = Some "foo"
  ∧ t "Foo" en ≠ t (Js.toLowerCase "Foo") en.
Proof. by vm_compute. Qed.

Example t_examples :
  t "Easy" en = Some "Easy"
  ∧ t "Easy" ar = t "easy" ar
  ∧ t "app_title" en = Some "Red Recycling Assistant"
  ∧ t "no such key" ar = Some "no such key"
  ∧ t "Constructor" en = None.
Proof. by vm_compute. Qed.

(** ** The inventory *)

Section Inventory.

Lemma truthy_ne s : Js.truthy s = true ↔ s ≠ "".
Proof. by destruct s. Qed.

Lemma materialOps_cons op ops s :
  materialOps (op :: ops) s = materialOps ops (materialOp op s).
Proof. done. Qed.

Lemma mintedIds_add form now ops :
  mintedIds (AddMaterial form now :: ops) =
  if Js.truthy (Form.name form) && Js.truthy (Form.quantity form)
  then now :: mintedIds ops else mintedIds ops.
Proof.
  unfold mintedIds. cbn.
  by destruct (Js.truthy (Form.name form) && Js.truthy (Form.quantity form)).
Qed.

(** The ids in the list come, in order, from the ids that were there and
    the ids minted since. *)
Lemma materialOps_ids ops : ∀ s,
  materialIds (materialOps ops s) `sublist_of` materialIds s ++ mintedIds ops.
Proof.
  induction ops as [|op ops IH]; intros s.
  - unfold mintedIds. simpl. by rewrite app_nil_r.
  - rewrite materialOps_cons. etrans; [apply IH|].
    destruct op as [form now|id].
    + rewrite mintedIds_add. unfold materialOp, handleAddMaterial. cbn zeta.
      destruct (Js.truthy (Form.name form) && Js.truthy (Form.quantity form)).
      * unfold materialIds. cbn. rewrite fmap_app, <- app_assoc. done.
      * done.
    + apply sublist_app; [|done].
      unfold materialIds. cbn. apply fmap_sublist, sublist_filter.
Qed.

End Inventory.

(** C1, as the code has it.  For every sequence of add-material and
    delete-material operations, the materials list holds no two entries
    with the same id provided the ids it started with and the timestamps
    read by the adds that append are pairwise distinct. *)
Theorem material_ids_unique (ops : list MaterialOp) (s : AppState) :
  NoDup (materialIds s ++ mintedIds ops) →
  NoDup (materialIds (materialOps ops s)).
Proof. intros H. eapply sublist_NoDup; [exact H|apply materialOps_ids]. Qed.

Lemma material_ids_unique_witness :
  NoDup (materialIds
           (materialOps
              [AddMaterial {| Form.name := "Tin"; Form.quantity := "2"; Form.unit := "kg" |}
                 "2026-11-02T10:15:00.000Z";
               AddMaterial {| Form.name := "Cloth"; Form.quantity := "1.5"; Form.unit := "meters" |}
                 "2026-11-02T10:15:00.001Z";
               DeleteMaterial "2026-11-02T10:15:00.000Z";
               AddMaterial {| Form.name := "Tin"; Form.quantity := "2"; Form.unit := "kg" |}
                 "2026-11-02T10:15:04.250Z"]
              state)).
Proof.
  apply material_ids_unique.
  apply (bool_decide_unpack _). vm_compute. reflexivity.
Defined.

(** C1 as stated fails: two adds that read the same millisecond mint the
    same id. *)
Lemma rapid_adds_share_id :
  let form := {| Form.name := "Tin"; Form.quantity := "2"; Form.unit := "kg" |} in
  let now := "2026-11-02T10:15:00.000Z" in
  ¬ NoDup (materialIds (materialOps [AddMaterial form now; AddMaterial form now] state)).
Proof. cbv zeta. apply (bool_decide_unpack _). vm_compute. reflexivity. Qed.

(** Deleting by id then removes both entries. *)
Example delete_removes_both :
  let form := {| Form.name := "Tin"; Form.quantity := "2"; Form.unit := "kg" |} in
  let now := "2026-11-02T10:15:00.000Z" in
  materials (materialOps [AddMaterial form now; AddMaterial form now;
                          DeleteMaterial now] state) = [].
Proof. vm_compute. reflexivity. Qed.

Section Quantity.

Ltac by_cases_on a :=
  destruct a as [[] [] [] [] [] [] [] []]; vm_compute; try done.

(** A character below U+0080 that is not white space starts no white
    space. *)
Lemma trimStart_keeps a r :
  (Js.code a <? 128)%N = true → Js.ws1 a = false →
  Js.trimStart (String a r) = String a r.
Proof.
  intros Ha Hw. cbn [Js.trimStart]. rewrite Hw.
  destruct r as [|b [|c r]]; try done.
  - replace (Js.ws2 a b) with false; [done|].
    revert Ha Hw. unfold Js.ws2. by_cases_on a.
  - replace (Js.ws2 a b) with false.
    + replace (Js.ws3 a b c) with false; [done|].
      revert Ha Hw. unfold Js.ws3. by_cases_on a.
    + revert Ha Hw. unfold Js.ws2. by_cases_on a.
Qed.

Lemma validUnsigned_head s1 :
  validUnsigned s1 = true →
  ∃ a r, s1 = String a r ∧ (Js.isDigit a = true ∨ a = "."%char).
Proof.
  unfold validUnsigned. destruct s1 as [|a r]; [done|]. cbn [Js.span].
  intros H. exists a, r. split; [done|].
  destruct (Js.isDigit a); [by left|]. right.
  cbn -[Ascii.eqb Js.span exponentPart] in H.
  by destruct (Ascii.eqb_spec a ".").
Qed.

Lemma validUnsigned_number neg s1 :
  validUnsigned s1 = true → isNaN (strUnsignedDecimalLiteral neg s1) = false.
Proof.
  intros Hv. unfold strUnsignedDecimalLiteral.
  destruct (validUnsigned_head _ Hv) as (a & r & -> & Ha).
  replace (String.prefix "Infinity" (String a r)) with false
    by (destruct Ha as [Ha| ->]; [revert Ha; by_cases_on a|done]).
  revert Hv. unfold validUnsigned.
  destruct (Js.span Js.isDigit (String a r)) as [ip r1].
  destruct r1 as [|c r1].
  { destruct (Js.isEmpty ip); [done|]. done. }
  destruct (Ascii.eqb c ".").
  - destruct (Js.span Js.isDigit r1) as [fp r2].
    destruct (Js.isEmpty fp) eqn:Efp; [done|]. intros _.
    rewrite andb_false_r. cbn beta iota zeta. by rewrite Efp, andb_false_r.
  - destruct (Js.isEmpty ip); [done|]. done.
Qed.

(** What a number input holds is read as a number. *)
Lemma validFloatingPointNumber_number s :
  validFloatingPointNumber s = true → isNaN (parseFloat s) = false.
Proof.
  unfold validFloatingPointNumber, parseFloat.
  destruct s as [|a r]; [done|].
  destruct (Ascii.eqb_spec a "-") as [->|Hm]; intros Hv.
  - rewrite trimStart_keeps by done. cbn [optSign Ascii.eqb Bool.eqb].
    by apply validUnsigned_number.
  - destruct (validUnsigned_head _ Hv) as (a' & r' & [= <- <-] & Ha).
    assert (Js.trimStart (String a r) = String a r) as ->.
    { apply trimStart_keeps; destruct Ha as [Ha| ->]; try done;
        revert Ha; by_cases_on a. }
    assert (optSign (String a r) = (false, String a r)) as ->.
    { destruct Ha as [Ha| ->]; [|done]. revert Ha. by_cases_on a. }
    by apply validUnsigned_number.
Qed.

End Quantity.

(** C5.  For every form the page submits (the quantity field is a number
    input: its value is the empty string or a valid floating-point
    number), the add-material handler appends a material, with the id
    minted from the clock and the form reset, exactly when the name is not
    empty and the quantity is a number; otherwise the state and the form
    are unchanged.  A material the handler appends never has the quantity
    [NaN]. *)
Theorem handleAddMaterial_checks_presence
    (form : Form.t) (now : string) (s : AppState) :
  numberInputValue (Form.quantity form) = true →
  let quantity := parseFloat (Form.quantity form) in
  let appended :=
    {| Material.id := now;
       Material.name := Form.name form;
       Material.quantity := quantity;
       Material.unit := Form.unit form |} in
  handleAddMaterial form now s =
    (if bool_decide (Form.name form ≠ "") && negb (isNaN quantity)
     then (set_materials (materials s ++ [appended]) s,
           {| Form.name := ""; Form.quantity := ""; Form.unit := "kg" |})
     else (s, form))
  ∧ ∀ m, m ∈ materials (handleAddMaterial form now s).1 →
         m ∈ materials s
         ∨ (m = appended ∧ isNaN (Material.quantity m) = false).
Proof.
  intros Hq. cbn zeta. unfold numberInputValue in Hq.
  unfold handleAddMaterial. cbn zeta.
  destruct (Form.quantity form) as [|b q] eqn:Eq.
  { rewrite andb_false_r.
    change (parseFloat "") with NaN. cbn [isNaN negb].
    rewrite andb_false_r. split; [done|]. intros m Hm. by left. }
  cbn [Js.truthy negb orb] in Hq.
  change (Js.truthy (String b q)) with true. rewrite andb_true_r.
  rewrite (validFloatingPointNumber_number _ Hq). cbn [negb].
  rewrite andb_true_r.
  destruct (Form.name form) as [|a n] eqn:En; cbn [Js.truthy].
  - rewrite (bool_decide_false ("" ≠ "")) by (by intros H).
    split; [done|]. intros m Hm. by left.
  - rewrite (bool_decide_true (String a n ≠ "")) by done.
    split; [done|]. cbn [fst materials set_materials]. intros m Hm.
    apply elem_of_app in Hm as [Hm|Hm]; [by left|]. right.
    apply list_elem_of_singleton in Hm as ->. split; [done|].
    cbn [Material.quantity]. by apply validFloatingPointNumber_number.
Qed.

Lemma handleAddMaterial_checks_presence_witness :
  let form := {| Form.name := "Tin"; Form.quantity := "2.5"; Form.unit := "kg" |} in
  let appended :=
    {| Material.id := "2026-11-02T10:15:00.000Z";
       Material.name := "Tin";
       Material.quantity := parseFloat "2.5";
       Material.unit := "kg" |} in
  handleAddMaterial form "2026-11-02T10:15:00.000Z" state =
    (if bool_decide ("Tin" ≠ "") && negb (isNaN (parseFloat "2.5"))
     then (set_materials (materials state ++ [appended]) state,
           {| Form.name := ""; Form.quantity := ""; Form.unit := "kg" |})
     else (state, form))
  ∧ ∀ m, m ∈ materials
               (handleAddMaterial form "2026-11-02T10:15:00.000Z" state).1 →
         m ∈ materials state
         ∨ (m = appended ∧ isNaN (Material.quantity m) = false).
Proof.
  cbv zeta.
  apply (handleAddMaterial_checks_presence
           {| Form.name := "Tin"; Form.quantity := "2.5"; Form.unit := "kg" |}
           "2026-11-02T10:15:00.000Z" state).
  reflexivity.
Defined.

(** That the quantity is a number is owed to the number input: the
    handler itself tests the two texts for presence only.  Called with a
    quantity text that no number input holds, it stores [NaN]. *)
Example handleAddMaterial_outside_number_input :
  let form := {| Form.name := "Tin"; Form.quantity := "abc"; Form.unit := "kg" |} in
  numberInputValue (Form.quantity form) = false
  ∧ materials (handleAddMaterial form "2026-11-02T10:15:00.000Z" state).1
    = [{| Material.id := "2026-11-02T10:15:00.000Z";
          Material.name := "Tin";
          Material.quantity := NaN;
          Material.unit := "kg" |}].
Proof. vm_compute. done. Qed.

Example parseFloat_examples :
  parseFloat " 12.5e1kg" = Decimal false 125 0
  ∧ parseFloat "-.5" = Decimal true 5 (-1)
  ∧ parseFloat "abc" = NaN
  ∧ parseFloat "" = NaN.
Proof. vm_compute. done. Qed.

(** ** Requests *)

(** Requesting suggestions with an empty inventory does nothing. *)
Lemma handleGetSuggestions_empty_inventory s :
  materials s = [] → handleGetSuggestions s = (s, None).
Proof. intros H. unfold handleGetSuggestions. by rewrite bool_decide_true. Qed.

(** Selecting an id that no suggestion of the list has does nothing. *)
Lemma handleSelectSuggestion_absent id s :
  id ∉ Suggestion.id <$> suggestions s → handleSelectSuggestion id s = (s, None).
Proof.
  intros H. unfold handleSelectSuggestion.
  destruct (list_find _ _) as [[i x]|] eqn:E; [|done].
  apply list_find_Some in E as (Hx & Hid & _). exfalso. apply H.
  rewrite <- Hid. apply list_elem_of_fmap_2. by eapply list_elem_of_lookup_2.
Qed.

(** Whatever the outcome of a request, the loading flag is lowered when it
    settles; a failed step request gives the selection up. *)
Lemma settled_not_loading (o1 : option (list Suggestion.t))
    (o2 : option ProjectData.t) s :
  isLoading (handleGetSuggestions_settled o1 s) = false
  ∧ isLoading (handleSelectSuggestion_settled o2 s) = false
  ∧ selectedSuggestion (handleSelectSuggestion_settled None s) = None.
Proof. by destruct o1, o2. Qed.

(** Going back keeps the suggestions. *)
Lemma handleBack_keeps_suggestions s :
  suggestions (handleBack s) = suggestions s
  ∧ selectedSuggestion (handleBack s) = None
  ∧ projectData (handleBack s) = None.
Proof. done. Qed.

(** ** Reset and language *)


(** C7.  For every state, toggling the language flips the locale, clears
    materials, suggestions, the selected suggestion (and project data) and
    the error, and replaces the chat by a session created for the new
    locale whose transcript is exactly one model message, the greeting of
    the translation table in the new locale. *)
Theorem handleToggleLanguage_resets (s : AppState) :
  let s' := handleToggleLanguage s in
  language s' = match language s with en => ar | ar => en end
  ∧ materials s' = []
  ∧ suggestions s' = []
  ∧ selectedSuggestion s' = None
  ∧ projectData s' = None
  ∧ error s' = None
  ∧ chat s' = Some (startChat (language s'))
  ∧ ∃ greeting,
      translations !! "chatbot_greeting" = Some greeting
      ∧ chatMessages s' =
          [{| ChatMessage.id := "initial";
              ChatMessage.role := model;
              ChatMessage.text := entryGet greeting (language s') |}].
Proof.
  cbn zeta. split_and!; try done.
  eexists. split; [vm_compute; reflexivity|].
  unfold handleToggleLanguage, initChat. cbn.
  by destruct (language s).
Qed.

Example toggle_from_initial_state :
  language (handleToggleLanguage state) = ar
  ∧ (ChatMessage.text <$> chatMessages (handleToggleLanguage state))
    = ["مساعد التدوير الأحمر متصل. الضغط الجوي طبيعي، وقد انتهيت من إعادة معايرة ماسحات المواد الخاصة بي. أنا مستعد لتحويل خردة اليوم إلى معدات بقاء للغد. ما هو التحدي الهندسي الذي يمكنني مساعدتك في حله؟"].
Proof. by vm_compute. Qed.

(** ** The chat *)

Section Chat.

Lemma isChatLoading_dispatch e s :
  isChatLoading s = true → isChatLoading (dispatch e s) = true.
Proof.
  intros H. destruct e as [[id|]| |[id|]|[level|]| | | |[tab|]|form now|input now];
    cbn [dispatch]; try done.
  - by destruct (Js.truthy id).
  - unfold handleGetSuggestions. by case_bool_decide.
  - destruct (Js.truthy id); [|done]. unfold handleSelectSuggestion.
    by destruct (list_find _ _) as [[? ?]|].
  - unfold handleSetTab. cbn. by destruct tab, (chat s).
  - unfold handleAddMaterial. cbn zeta.
    by destruct (Js.truthy _ && Js.truthy _).
  - unfold handleSendMessage. cbn zeta. by rewrite H, orb_true_r.
Qed.

Lemma isChatLoading_perform a s :
  isChatLoading s = true → isChatLoading (perform a s) = true.
Proof.
  intros H. destruct a as [e|o|o|chunk x]; cbn [perform].
  - by apply isChatLoading_dispatch.
  - by destruct o.
  - by destruct o.
  - unfold handleSendMessage_chunk. cbn zeta.
    by destruct (list_find _ _) as [[? ?]|].
Qed.

Lemma isChatLoading_performAll l : ∀ s,
  isChatLoading s = true → isChatLoading (performAll l s) = true.
Proof.
  induction l as [|a l IH]; intros s H; [done|].
  apply (IH (perform a s)). by apply isChatLoading_perform.
Qed.

Lemma handleSendMessage_accepted inputValue now s s1 request :
  handleSendMessage inputValue now s = (s1, Some request) →
  isChatLoading s1 = true.
Proof.
  unfold handleSendMessage. cbn zeta.
  destruct (_ || _ || _); [done|]. by intros [= <- _].
Qed.

End Chat.

(** C4, as the code has it.  From the moment a send-chat-message is
    accepted (on the chat tab; it has appended its user message and raised
    the in-flight flag) until the next time a stream is delivered or a failure is
    handled, of whichever chat request, invoking send-chat-message again
    (from the chat form, so with the chat tab active) is a no-op, whatever
    else happens in between (events of the interface, suggestion or step
    requests settling, fragments of replies): the state, the chat message
    list with it, is unchanged and no request is issued.  The flag is one boolean, shared by all exchanges: the delivery
    of any stream lowers it, before the first fragment is read, and so does
    the handling of any failure. *)
Theorem send_is_noop_until_stream_opens
    (inputValue : string) (now : N) (s s1 : AppState) (request : string)
    (between : list Happening) (inputValue' : string) (now' : N) :
  activeTab s = chatbot →
  handleSendMessage inputValue now s = (s1, Some request) →
  Forall (λ h, lowersChatFlag h = false) between →
  activeTab (happenAll between s1) = chatbot →
  let s2 := happenAll between s1 in
  handleSendMessage inputValue' now' s2 = (s2, None)
  ∧ (∀ opened, isChatLoading (handleSendMessage_stream opened s2).1 = false)
  ∧ (∀ failed, isChatLoading (handleSendMessage_catch failed s2) = false).
Proof.
  intros _ H Hb _. cbn zeta. split; [|done].
  apply handleSendMessage_accepted in H.
  assert (isChatLoading (happenAll between s1) = true) as Hl.
  { revert s1 H. induction Hb as [|h l Hh _ IH]; intros s1 H; [done|].
    apply (IH (happen h s1)).
    destruct h as [a| |]; [|done..]. by apply isChatLoading_perform. }
  unfold handleSendMessage. cbn zeta. by rewrite Hl, orb_true_r.
Qed.

Lemma send_is_noop_until_stream_opens_witness :
  let s := handleSetTab chatbot state in
  let s1 := (handleSendMessage "How do I melt regolith?" 1000 s).1 in
  let s2 :=
    happenAll
      [activity (on_event (submit_chat_form "again" 1010));
       activity (on_event (click_set_tab (Some recycler)));
       activity
         (on_event
            (submit_add_material_form
               {| Form.name := "Tin"; Form.quantity := "2"; Form.unit := "kg" |}
               "2026-11-02T10:15:00.000Z"));
       activity (on_event (click_set_tab (Some chatbot)))]
      s1 in
  handleSendMessage "and again" 1020 s2 = (s2, None)
  ∧ (∀ opened, isChatLoading (handleSendMessage_stream opened s2).1 = false)
  ∧ (∀ failed, isChatLoading (handleSendMessage_catch failed s2) = false).
Proof.
  cbv zeta.
  apply (send_is_noop_until_stream_opens "How do I melt regolith?" 1000
           (handleSetTab chatbot state) _ "How do I melt regolith?").
  - reflexivity.
  - vm_compute. reflexivity.
  - repeat constructor.
  - vm_compute. reflexivity.
Defined.

(** C4 as stated fails: while the reply to a first message is still being
    streamed, a second send is accepted; it appends its user message and
    issues a request. *)
Lemma second_send_accepted_while_streaming :
  let s := handleSetTab chatbot state in
  let s1 := (handleSendMessage "How do I melt regolith?" 1000 s).1 in
  let opened := handleSendMessage_stream 1250 s1 in
  let s3 := (handleSendMessage_chunk (Some "Hel") opened.2 opened.1).1 in
  (handleSendMessage "again" 1300 s3).2 = Some "again"
  ∧ length (chatMessages (handleSendMessage "again" 1300 s3).1)
    = S (length (chatMessages s3)).
Proof. by vm_compute. Qed.

(** The flag does not tell the exchanges apart.  A first reply is being
    streamed when a second message is sent; the first exchange fails, a
    third message is sent, and the stream of the second is delivered: a
    fourth message is accepted while the third still waits for its
    stream. *)
Example send_accepted_while_request_waits :
  let s := handleSetTab chatbot state in
  let first := (handleSendMessage "first" 1000 s).1 in
  let streaming := (handleSendMessage_stream 1100 first).1 in
  let second := (handleSendMessage "second" 1200 streaming).1 in
  let failed := handleSendMessage_catch 1300 second in
  let third := (handleSendMessage "third" 1400 failed).1 in
  let delivered := (handleSendMessage_stream 1500 third).1 in
  (handleSendMessage "third" 1400 failed).2 = Some "third"
  ∧ (handleSendMessage "fourth" 1600 delivered).2 = Some "fourth".
Proof. by vm_compute. Qed.

Section Stream.

Lemma append_nil_r s : s +:+ "" = s.
Proof.
  induction s as [|a s IH]; [done|].
  change (String a (s +:+ "") = String a s). by rewrite IH.
Qed.

Lemma append_assoc s1 s2 s3 : (s1 +:+ s2) +:+ s3 = s1 +:+ s2 +:+ s3.
Proof.
  induction s1 as [|a s1 IH]; [done|].
  change (String a ((s1 +:+ s2) +:+ s3) = String a (s1 +:+ s2 +:+ s3)).
  by rewrite IH.
Qed.

Lemma allDigits_cons a s :
  allDigits (String a s) = Js.isDigit a && allDigits s.
Proof.
  unfold allDigits. cbn [Js.span].
  destruct (Js.isDigit a); [|done]. by destruct (Js.span Js.isDigit s).
Qed.

Lemma pretty_N_char_isDigit x : Js.isDigit (pretty_N_char x) = true.
Proof.
  destruct x as [|p]; [done|].
  do 4 (try destruct p as [p|p|]); done.
Qed.

Lemma pretty_N_go_allDigits x : ∀ s,
  allDigits s = true → allDigits (pretty_N_go x s) = true.
Proof.
  induction (N.lt_wf_0 x) as [x _ IH]. intros s Hs.
  destruct (decide (x = 0%N)) as [->|Hx]; [by rewrite pretty_N_go_0|].
  rewrite pretty_N_go_step by lia. apply IH.
  - apply N.div_lt; lia.
  - by rewrite allDigits_cons, pretty_N_char_isDigit.
Qed.

(** [Date.now().toString()] is a run of digits. *)
Lemma timestamp_allDigits now : allDigits (timestamp now) = true.
Proof.
  unfold timestamp, pretty, pretty_N. case_decide; [done|].
  by apply pretty_N_go_allDigits.
Qed.

Lemma model_id_not_allDigits s : allDigits (s +:+ "-model") = false.
Proof.
  induction s as [|a s IH]; [done|].
  change (allDigits (String a (s +:+ "-model")) = false).
  by rewrite allDigits_cons, IH, andb_false_r.
Qed.

(** The id of a user message is never the id of a model message. *)
Lemma user_id_ne_model_id sent opened :
  timestamp sent ≠ timestamp opened +:+ "-model".
Proof.
  intros H. pose proof (timestamp_allDigits sent) as Hd.
  by rewrite H, model_id_not_allDigits in Hd.
Qed.

Lemma find_placeholder base id text :
  id ∉ ChatMessage.id <$> base →
  list_find (λ m, ChatMessage.id m = id) (base ++ [modelMessage id text])
  = Some (length base, modelMessage id text).
Proof.
  intros Hfresh. rewrite list_find_app_r.
  - cbn. by rewrite decide_True.
  - apply list_find_None, Forall_forall. intros m Hm Hid.
    apply Hfresh. rewrite <- Hid. by apply list_elem_of_fmap_2.
Qed.

Lemma handleSendMessage_chunk_placeholder chunk id response base text s :
  id ∉ ChatMessage.id <$> base →
  chatMessages s = base ++ [modelMessage id text] →
  handleSendMessage_chunk chunk
    {| modelMessageId := id; modelResponse := response |} s
  = (s |> set_chatMessages
            (base ++ [modelMessage id (response +:+ chunkText chunk)]),
     {| modelMessageId := id;
        modelResponse := response +:+ chunkText chunk |}).
Proof.
  intros Hfresh Hs. unfold handleSendMessage_chunk.
  cbn [modelMessageId modelResponse]. rewrite Hs, find_placeholder by done.
  do 2 f_equal. rewrite <- (Nat.add_0_r (length base)) at 1.
  by rewrite alter_app_r.
Qed.

Lemma handleSendMessage_chunks_placeholder id base chunks :
  id ∉ ChatMessage.id <$> base →
  ∀ response text s,
    chatMessages s = base ++ [modelMessage id text] →
    (handleSendMessage_chunks chunks
       {| modelMessageId := id; modelResponse := response |} s).1
    = s |> set_chatMessages
             (base ++
                [modelMessage id
                   (if bool_decide (chunks = []) then text
                    else response +:+ fragmentsText chunks)]).
Proof.
  intros Hfresh. induction chunks as [|chunk chunks IH];
    intros response text s Hs.
  - cbn. rewrite <- Hs. by destruct s.
  - cbn [handleSendMessage_chunks].
    rewrite (handleSendMessage_chunk_placeholder _ _ _ base text) by done.
    rewrite (IH _ (response +:+ chunkText chunk)) by done.
    cbn [fragmentsText foldr].
    rewrite (bool_decide_false (chunk :: chunks = [])) by done.
    case_bool_decide as Hc.
    + subst chunks. cbn. by rewrite append_nil_r.
    + by rewrite append_assoc.
Qed.

(** Reading the fragments one after the other: the state after a prefix
    of the stream is the state the rest of the stream starts from. *)
Lemma handleSendMessage_chunks_app l1 : ∀ l2 x s,
  handleSendMessage_chunks (l1 ++ l2) x s
  = handleSendMessage_chunks l2
      (handleSendMessage_chunks l1 x s).2 (handleSendMessage_chunks l1 x s).1.
Proof.
  induction l1 as [|chunk l1 IH]; intros l2 x s; [done|].
  cbn [app handleSendMessage_chunks].
  destruct (handleSendMessage_chunk chunk x s) as [s' x']. apply IH.
Qed.

(** The id the loop looks for never changes. *)
Lemma handleSendMessage_chunks_id l : ∀ x s,
  modelMessageId (handleSendMessage_chunks l x s).2 = modelMessageId x.
Proof.
  induction l as [|chunk l IH]; intros x s; [done|].
  cbn [handleSendMessage_chunks].
  destruct (handleSendMessage_chunk chunk x s) as [s' x'] eqn:E.
  rewrite IH. unfold handleSendMessage_chunk in E. cbn zeta in E.
  destruct (list_find _ _) as [[? ?]|]; by injection E as <- <-.
Qed.

End Stream.

(** C9, as the code has it.  For every finite sequence of streamed
    fragments of one model reply, send-chat-message appends, after the user
    message, exactly one model message; its id is the one minted when the
    stream was delivered, whatever the number of fragments read so far, and
    the fragments are never appended as messages of their own.  Provided
    that id is not yet in the transcript, the text of the message is the
    concatenation of the fragments read so far once there is one, and the
    placeholder of three dots while there is none: after an empty stream
    the text is the placeholder, not the empty concatenation. *)
Theorem sendChatMessage_one_model_message
    (inputValue : string) (sent opened : N) (chunks : list (option string))
    (s : AppState) :
  Js.trim inputValue ≠ "" →
  is_Some (chat s) →
  isChatLoading s = false →
  timestamp opened +:+ "-model" ∉ ChatMessage.id <$> chatMessages s →
  sendChatMessage inputValue sent opened chunks s
  = s |> set_chatMessages
           (chatMessages s ++
              [{| ChatMessage.id := timestamp sent;
                  ChatMessage.role := user;
                  ChatMessage.text := Js.trim inputValue |};
               {| ChatMessage.id := timestamp opened +:+ "-model";
                  ChatMessage.role := model;
                  ChatMessage.text :=
                    if bool_decide (chunks = []) then "..."
                    else fragmentsText chunks |}]).
Proof.
  intros Hinput Hchat Hloading Hfresh.
  unfold sendChatMessage, handleSendMessage. cbn zeta.
  apply truthy_ne in Hinput. rewrite Hinput, Hloading.
  rewrite (bool_decide_true _ Hchat). cbn [negb orb].
  unfold handleSendMessage_stream. cbn zeta.
  set (base := chatMessages s ++ [_]).
  rewrite (handleSendMessage_chunks_placeholder _ base chunks) with (text := "...").
  - subst base. cbn. rewrite <- app_assoc. cbn.
    destruct s; cbn in *. by subst.
  - subst base. rewrite fmap_app, elem_of_app. intros [?|Hu]; [done|].
    cbn in Hu. apply list_elem_of_singleton in Hu.
    by eapply user_id_ne_model_id.
  - done.
Qed.

Lemma sendChatMessage_one_model_message_witness :
  let s := handleSetTab chatbot state in
  sendChatMessage "How do I melt regolith?" 1000 1250 [Some "Hel"; Some "lo"] s
  = s |> set_chatMessages
           (chatMessages s ++
              [{| ChatMessage.id := "1000";
                  ChatMessage.role := user;
                  ChatMessage.text := "How do I melt regolith?" |};
               {| ChatMessage.id := "1250-model";
                  ChatMessage.role := model;
                  ChatMessage.text := "Hello" |}]).
Proof.
  cbv zeta.
  apply (sendChatMessage_one_model_message "How do I melt regolith?" 1000 1250
           [Some "Hel"; Some "lo"] (handleSetTab chatbot state)).
  - vm_compute. discriminate.
  - vm_compute. eexists. reflexivity.
  - reflexivity.
  - apply (bool_decide_unpack _). vm_compute. reflexivity.
Defined.

(** C9 as stated fails: when the stream ends without a fragment, the text
    of the model message is the placeholder, while the concatenation of the
    fragments is the empty string. *)
Lemma empty_stream_keeps_placeholder :
  let s := handleSetTab chatbot state in
  last (chatMessages (sendChatMessage "How do I melt regolith?" 1000 1250 [] s))
  = Some {| ChatMessage.id := "1250-model";
            ChatMessage.role := model;
            ChatMessage.text := "..." |}
  ∧ fragmentsText [] = ""
  ∧ "..." ≠ fragmentsText [].
Proof. by vm_compute. Qed.

(** The id has to be new: with the clock read twice in the same
    millisecond, the fragments of the second reply go to the message of the
    first. *)
Example stale_model_id :
  let s := handleSetTab chatbot state in
  let s1 := sendChatMessage "first" 1000 1250 [Some "Hello"] s in
  ChatMessage.text <$>
    chatMessages (sendChatMessage "second" 1250 1250 [Some "Bye"] s1)
  = [str (t "chatbot_greeting" en); "first"; "Bye"; "second"; "..."].
Proof. by vm_compute. Qed.

(** * Further properties *)

(** ** Deleting materials *)

Section Delete.

Lemma filter_all {A} (P : A → Prop) `{∀ x, Decision (P x)} (l : list A) :
  Forall P l → filter P l = l.
Proof.
  induction 1 as [|x l Hx _ IH]; [done|].
  by rewrite filter_cons_True, IH.
Qed.

Lemma set_materials_same s : set_materials (materials s) s = s.
Proof. by destruct s. Qed.

Lemma keeps_other_ids id (l : list Material.t) :
  id ∉ (Material.id <$> l) → filter (λ m, Material.id m ≠ id) l = l.
Proof.
  intros H. apply filter_all, Forall_forall. intros m Hm Hid.
  apply H. rewrite <- Hid. by apply list_elem_of_fmap_2.
Qed.

End Delete.

(** X1.  Deleting by id removes every material with that id and no other:
    the materials left are those with another id, in the order they had;
    deleting an id no material has changes nothing, and so does deleting
    the same id again. *)
Theorem handleDeleteMaterial_removes (id : string) (s : AppState) :
  let s' := handleDeleteMaterial id s in
  (∀ m, m ∈ materials s' ↔ m ∈ materials s ∧ Material.id m ≠ id)
  ∧ materials s' `sublist_of` materials s
  ∧ (id ∉ materialIds s')
  ∧ (id ∉ materialIds s → s' = s)
  ∧ handleDeleteMaterial id s' = s'.
Proof.
  cbn zeta. unfold handleDeleteMaterial, materialIds. cbn.
  split_and!.
  - intros m. rewrite list_elem_of_filter. tauto.
  - apply sublist_filter.
  - intros H. apply list_elem_of_fmap in H as (m & -> & Hm).
    apply list_elem_of_filter in Hm as [Hne _]. done.
  - intros H. rewrite keeps_other_ids by done. apply set_materials_same.
  - unfold set_materials. cbn. f_equal. apply list_filter_filter_l. done.
Qed.

(** X2.  Adding a material under an id that is not in the list and
    deleting that id again gives the state back. *)
Theorem add_then_delete (form : Form.t) (now : string) (s : AppState) :
  Form.name form ≠ "" → Form.quantity form ≠ "" →
  now ∉ materialIds s →
  handleDeleteMaterial now (handleAddMaterial form now s).1 = s.
Proof.
  intros Hn Hq Hfresh. unfold handleAddMaterial. cbn zeta.
  apply truthy_ne in Hn, Hq. rewrite Hn, Hq. cbn [andb fst].
  unfold handleDeleteMaterial, set_materials. cbn.
  rewrite filter_app, keeps_other_ids by done.
  rewrite filter_cons_False by (cbn; tauto).
  rewrite filter_nil, app_nil_r. by destruct s.
Qed.

Lemma add_then_delete_witness :
  let form := {| Form.name := "Tin"; Form.quantity := "2"; Form.unit := "kg" |} in
  handleDeleteMaterial "2026-11-02T10:15:00.000Z"
    (handleAddMaterial form "2026-11-02T10:15:00.000Z" state).1 = state.
Proof.
  cbv zeta. apply add_then_delete.
  - discriminate.
  - discriminate.
  - apply (bool_decide_unpack _). vm_compute. reflexivity.
Defined.

(** X3.  Every material in the list has a non-empty name, whatever is
    added and deleted, once this holds of the materials to start with. *)
Theorem material_names_not_empty (ops : list MaterialOp) (s : AppState) :
  Forall (λ m, Material.name m ≠ "") (materials s) →
  Forall (λ m, Material.name m ≠ "") (materials (materialOps ops s)).
Proof.
  revert s. induction ops as [|op ops IH]; intros s H; [done|].
  rewrite materialOps_cons. apply IH.
  destruct op as [form now|id]; cbn [materialOp].
  - unfold handleAddMaterial. cbn zeta.
    destruct (Js.truthy (Form.name form)) eqn:En; [|done].
    destruct (Js.truthy (Form.quantity form)); [|done]. cbn.
    apply Forall_app. split; [done|]. constructor; [|done].
    cbn. by apply truthy_ne.
  - cbn. rewrite Forall_forall in H. apply Forall_forall. intros m Hm.
    apply list_elem_of_filter in Hm as [_ Hm]. by apply H.
Qed.

Lemma material_names_not_empty_witness :
  Forall (λ m, Material.name m ≠ "")
    (materials
       (materialOps
          [AddMaterial {| Form.name := "Tin"; Form.quantity := "2"; Form.unit := "kg" |}
             "2026-11-02T10:15:00.000Z";
           AddMaterial {| Form.name := ""; Form.quantity := "1"; Form.unit := "g" |}
             "2026-11-02T10:15:01.000Z"]
          state)).
Proof. apply material_names_not_empty. constructor. Defined.

(** ** What the fabrication unit shows *)

(** X4.  The page never shows the text for an empty list of suggestions:
    the suggestions view is only rendered while loading, with an error, or
    with at least one suggestion. *)
Theorem no_suggestions_text_never_shown (s : AppState) :
  renderRecyclerContent s ≠ SuggestionDisplay NoSuggestions
  ∧ renderApp s ≠ SuggestionDisplay NoSuggestions.
Proof.
  assert (renderRecyclerContent s ≠ SuggestionDisplay NoSuggestions) as H.
  { unfold renderRecyclerContent, renderStepsDisplay, renderSuggestionDisplay,
      renderMaterialInputManager.
    destruct (selectedSuggestion s);
      [by destruct (projectData s), (isLoading s)|].
    destruct (isLoading s); [done|].
    destruct (errorSet s); case_bool_decide; cbn; done. }
  split; [done|]. unfold renderApp. by destruct (activeTab s).
Qed.

(** X5.  Requesting suggestions for a non-empty inventory shows the
    spinner; when the request settles the page shows the suggestions
    received, the inventory again when none was received, or the error
    text when the request failed.  The inventory is the same
    throughout. *)
Theorem suggestions_request_cycle (s : AppState) (l : list Suggestion.t) :
  materials s ≠ [] → activeTab s = recycler →
  let s1 := (handleGetSuggestions s).1 in
  renderApp s1 = SuggestionDisplay LoadingSuggestions
  ∧ renderApp (handleGetSuggestions_settled (Some l) s1)
    = (if bool_decide (l = []) then MaterialInputManager (materials s)
       else SuggestionDisplay (SuggestionCards l))
  ∧ renderApp (handleGetSuggestions_settled None s1)
    = SuggestionDisplay
        (ErrorText "Failed to get suggestions. Please try again.")
  ∧ materials (handleGetSuggestions_settled (Some l) s1) = materials s
  ∧ materials (handleGetSuggestions_settled None s1) = materials s.
Proof.
  intros Hm Htab. unfold handleGetSuggestions.
  rewrite (bool_decide_false (materials s = [])) by done. cbn zeta.
  unfold renderApp, renderRecyclerContent, renderSuggestionDisplay,
    renderMaterialInputManager, errorSet. cbn. rewrite Htab.
  split_and!; try done.
  by case_bool_decide.
Qed.

Lemma suggestions_request_cycle_witness :
  let s := (handleAddMaterial
              {| Form.name := "Tin"; Form.quantity := "2"; Form.unit := "kg" |}
              "2026-11-02T10:15:00.000Z" state).1 in
  renderApp (handleGetSuggestions_settled (Some []) (handleGetSuggestions s).1)
  = MaterialInputManager (materials s).
Proof.
  cbv zeta.
  refine (proj1 (proj2 (suggestions_request_cycle _ [] _ _))).
  - discriminate.
  - reflexivity.
Defined.

(** X6.  Selecting a suggestion by id takes the first suggestion of the
    list with that id and shows the spinner; when the steps arrive the
    page shows the protocol of that suggestion, and going back shows the
    same suggestions again.  When the request fails the selection is
    given up and the suggestions view shows the error text. *)
Theorem select_suggestion_cycle (s : AppState) (i : nat) (sg : Suggestion.t)
    (data : ProjectData.t) :
  suggestions s !! i = Some sg →
  (∀ j sg', suggestions s !! j = Some sg' → j < i →
            Suggestion.id sg' ≠ Suggestion.id sg) →
  activeTab s = recycler →
  let s1 := (handleSelectSuggestion (Suggestion.id sg) s).1 in
  let s2 := handleSelectSuggestion_settled (Some data) s1 in
  let s3 := handleSelectSuggestion_settled None s1 in
  (handleSelectSuggestion (Suggestion.id sg) s).2 = Some (sg, language s)
  ∧ renderApp s1 = StepsDisplay LoadingSteps
  ∧ renderApp s2 = StepsDisplay (Protocol sg data)
  ∧ renderApp (handleBack s2) = SuggestionDisplay (SuggestionCards (suggestions s))
  ∧ renderApp s3
    = SuggestionDisplay (ErrorText "Failed to get steps. Please try again.")
  ∧ suggestions s3 = suggestions s.
Proof.
  intros Hi Hfirst Htab. unfold handleSelectSuggestion.
  assert (list_find (λ x, Suggestion.id x = Suggestion.id sg) (suggestions s)
          = Some (i, sg)) as ->.
  { apply list_find_Some. split_and!; [done..|]. intros j y Hj Hlt.
    by apply Hfirst with j. }
  cbn zeta.
  unfold renderApp, renderRecyclerContent, renderStepsDisplay,
    renderSuggestionDisplay, renderMaterialInputManager, errorSet, handleBack.
  cbn. rewrite Htab.
  assert (suggestions s ≠ []) as Hne by (intros E; by rewrite E in Hi).
  split_and!; try done.
  all: by rewrite (bool_decide_false (suggestions s = [])) by done.
Qed.

Lemma select_suggestion_cycle_witness :
  let s := state |> set_suggestions [waterFilter] in
  renderApp
    (handleBack
       (handleSelectSuggestion_settled
          (Some {| ProjectData.steps := [];
                   ProjectData.total_power_consumption_kwh := Decimal false 0 0;
                   ProjectData.power_consumption_breakdown := [] |})
          (handleSelectSuggestion (Suggestion.id waterFilter) s).1))
  = SuggestionDisplay (SuggestionCards [waterFilter]).
Proof.
  cbv zeta.
  refine (proj1 (proj2 (proj2 (proj2
            (select_suggestion_cycle (state |> set_suggestions [waterFilter])
               0 waterFilter _ _ _ _))))).
  - reflexivity.
  - intros j sg' _ Hj. lia.
  - reflexivity.
Defined.

(** ** The chat session *)

Section Session.

Lemma handleSetTab_session tab s :
  is_Some (chat s) → handleSetTab tab s = set_activeTab tab s.
Proof.
  intros [c Hc]. unfold handleSetTab. cbn zeta.
  destruct tab; [done|]. cbn [chat set_activeTab]. by rewrite Hc.
Qed.

Lemma setTabs_session tabs : ∀ s,
  is_Some (chat s) →
  setTabs tabs s = set_activeTab (default (activeTab s) (last tabs)) s.
Proof.
  induction tabs as [|tab tabs IH]; intros s Hc.
  - cbn. by destruct s.
  - unfold setTabs. cbn [foldl]. fold (setTabs tabs (handleSetTab tab s)).
    rewrite handleSetTab_session by done. rewrite IH by done.
    rewrite last_cons. by destruct (last tabs).
Qed.

Lemma speaker_alter text (i : nat) (l : list ChatMessage.t) :
  speaker <$> alter (setText text) i l = speaker <$> l.
Proof.
  rewrite (list_fmap_alter speaker (setText text) id)
    by (by apply Forall_forall).
  by apply list_alter_id.
Qed.

Lemma chat_handleSendMessage_chunk chunk x s :
  let s' := (handleSendMessage_chunk chunk x s).1 in
  recyclerFields s' = recyclerFields s ∧ language s' = language s
  ∧ activeTab s' = activeTab s ∧ chat s' = chat s
  ∧ isChatLoading s' = isChatLoading s
  ∧ speaker <$> chatMessages s' = speaker <$> chatMessages s.
Proof.
  cbn zeta. unfold handleSendMessage_chunk. cbn zeta.
  destruct (list_find _ _) as [[i m]|]; [|done]. cbn.
  split_and!; try done. apply speaker_alter.
Qed.

Lemma happen_session h s c :
  isToggle h = false → chat s = Some c →
  chat (happen h s) = Some c
  ∧ (speaker <$> chatMessages s)
      `prefix_of` (speaker <$> chatMessages (happen h s)).
Proof.
  intros Hh Hc.
  destruct h as [[e|o|o|chunk x]|now|now]; cbn [happen perform].
  - destruct e as [[id|]| |[id|]|[level|]| | | |[tab|]|form now|input now];
      cbn [dispatch]; try done.
    + destruct (Js.truthy id); done.
    + unfold handleGetSuggestions. by case_bool_decide.
    + destruct (Js.truthy id); [|done]. unfold handleSelectSuggestion.
      by destruct (list_find _ _) as [[? ?]|].
    + by rewrite handleSetTab_session.
    + unfold handleAddMaterial. cbn zeta. by destruct (_ && _).
    + unfold handleSendMessage. cbn zeta. destruct (_ || _ || _); [done|].
      cbn. split; [done|]. rewrite fmap_app. by apply prefix_app_r.
  - by destruct o.
  - by destruct o.
  - destruct (chat_handleSendMessage_chunk chunk x s)
      as (_ & _ & _ & -> & _ & ->). done.
  - cbn. split; [done|]. rewrite fmap_app. by apply prefix_app_r.
  - cbn. split; [done|]. rewrite fmap_app. by apply prefix_app_r.
Qed.

Lemma happen_ofChat h s :
  ofChat h = true →
  recyclerFields (happen h s) = recyclerFields s
  ∧ language (happen h s) = language s
  ∧ activeTab (happen h s) = activeTab s.
Proof.
  intros Hh.
  destruct h as [[e|o|o|chunk x]|now|now]; try done; cbn [happen perform].
  - destruct e; try done. cbn [dispatch]. unfold handleSendMessage.
    cbn zeta. by destruct (_ || _ || _).
  - destruct (chat_handleSendMessage_chunk chunk x s) as (? & ? & ? & _).
    done.
Qed.

Lemma happen_ofRecycler h s :
  ofRecycler h = true →
  chatFields (happen h s) = chatFields s
  ∧ language (happen h s) = language s
  ∧ activeTab (happen h s) = activeTab s.
Proof.
  intros Hh.
  destruct h as [[e|o|o|chunk x]|now|now]; try done; cbn [happen perform].
  - destruct e as [[id|]| |[id|]|[level|]| | | |[tab|]|form now|input now];
      try done; cbn [dispatch].
    + destruct (Js.truthy id); done.
    + unfold handleGetSuggestions. by case_bool_decide.
    + destruct (Js.truthy id); [|done]. unfold handleSelectSuggestion.
      by destruct (list_find _ _) as [[? ?]|].
    + unfold handleAddMaterial. cbn zeta. by destruct (_ && _).
  - by destruct o.
  - by destruct o.
Qed.

Lemma happenAll_cons h l s : happenAll (h :: l) s = happenAll l (happen h s).
Proof. done. Qed.

End Session.

(** X7.  The chat is set up the first time the chat tab is opened, and
    only then: whatever tabs are clicked afterwards, nothing of the state
    changes but the active tab, so the session and the transcript are
    kept. *)
Theorem tab_switches_keep_chat (tabs : list Tab) (s : AppState) :
  let s1 := handleSetTab chatbot s in
  is_Some (chat s1)
  ∧ setTabs tabs s1 = set_activeTab (default chatbot (last tabs)) s1.
Proof.
  cbn zeta.
  assert (is_Some (chat (handleSetTab chatbot s))) as Hc.
  { unfold handleSetTab. cbn zeta. cbn [chat set_activeTab].
    destruct (chat s) eqn:E; cbn; [by rewrite E|done]. }
  split; [done|]. rewrite setTabs_session by done. f_equal.
  unfold handleSetTab. cbn zeta. cbn [chat set_activeTab].
  by destruct (chat s).
Qed.

(** X8.  Once there is a chat session, nothing but the language toggle
    replaces it, and nothing but the language toggle removes or reorders
    messages of the transcript: the ids and roles of the messages there
    stay where they are, at the front. *)
Theorem chat_session_persists (l : list Happening) (s : AppState) (c : Chat.t) :
  chat s = Some c → Forall (λ h, isToggle h = false) l →
  chat (happenAll l s) = Some c
  ∧ (speaker <$> chatMessages s)
      `prefix_of` (speaker <$> chatMessages (happenAll l s)).
Proof.
  intros Hc Hl. revert s Hc.
  induction Hl as [|h l Hh _ IH]; intros s Hc; [done|].
  rewrite happenAll_cons.
  destruct (happen_session h s c Hh Hc) as [Hc' Hp].
  destruct (IH _ Hc') as [Hc'' Hp']. split; [done|]. by etrans.
Qed.

Lemma chat_session_persists_witness :
  let s := handleSetTab chatbot state in
  let l := [activity (on_event (submit_chat_form "hello" 1700000000000));
            activity (on_event (click_set_tab (Some recycler)));
            stream_delivered 1700000000400;
            activity (on_event click_reset)] in
  chat (happenAll l s) = Some (startChat en)
  ∧ (speaker <$> chatMessages s)
      `prefix_of` (speaker <$> chatMessages (happenAll l s)).
Proof.
  cbv zeta. apply chat_session_persists.
  - reflexivity.
  - repeat constructor.
Defined.

(** X9.  What happens in the chat (a submitted message, the stream being
    delivered, a fragment, a failure) changes nothing of the fabrication
    unit: materials, suggestions, selection, steps, loading flag, error
    and difficulty are kept, and so are the language and the tab. *)
Theorem chat_leaves_recycler (l : list Happening) (s : AppState) :
  Forall (λ h, ofChat h = true) l →
  recyclerFields (happenAll l s) = recyclerFields s
  ∧ language (happenAll l s) = language s
  ∧ activeTab (happenAll l s) = activeTab s.
Proof.
  intros Hl. revert s. induction Hl as [|h l Hh _ IH]; intros s; [done|].
  rewrite happenAll_cons.
  destruct (happen_ofChat h s Hh) as (<- & <- & <-). apply IH.
Qed.

Lemma chat_leaves_recycler_witness :
  let s := handleSetTab chatbot state in
  let l := [activity (on_event (submit_chat_form "hello" 1700000000000));
            exchange_failed 1700000000400] in
  recyclerFields (happenAll l s) = recyclerFields s
  ∧ language (happenAll l s) = language s
  ∧ activeTab (happenAll l s) = activeTab s.
Proof. cbv zeta. apply chat_leaves_recycler. repeat constructor. Defined.

(** X10.  What happens in the fabrication unit (adding and deleting
    materials, the difficulty, requests and their settling, back, reset)
    changes nothing of the chat: the session, the transcript and the
    chat's loading flag are kept, and so are the language and the tab. *)
Theorem recycler_leaves_chat (l : list Happening) (s : AppState) :
  Forall (λ h, ofRecycler h = true) l →
  chatFields (happenAll l s) = chatFields s
  ∧ language (happenAll l s) = language s
  ∧ activeTab (happenAll l s) = activeTab s.
Proof.
  intros Hl. revert s. induction Hl as [|h l Hh _ IH]; intros s; [done|].
  rewrite happenAll_cons.
  destruct (happen_ofRecycler h s Hh) as (<- & <- & <-). apply IH.
Qed.

Lemma recycler_leaves_chat_witness :
  let s := handleSetTab chatbot state in
  let l := [activity
              (on_event
                 (submit_add_material_form
                    {| Form.name := "Tin"; Form.quantity := "2";
                       Form.unit := "kg" |}
                    "2026-11-02T10:15:00.000Z"));
            activity (on_event click_get_suggestions);
            activity (suggestions_settled None);
            activity (on_event click_reset)] in
  chatFields (happenAll l s) = chatFields s
  ∧ language (happenAll l s) = language s
  ∧ activeTab (happenAll l s) = activeTab s.
Proof. cbv zeta. apply recycler_leaves_chat. repeat constructor. Defined.

(** ** Sending messages *)

Section Sending.

Lemma find_speaker k (l l' : list ChatMessage.t) :
  speaker <$> l' = speaker <$> l →
  fst <$> list_find (λ m, ChatMessage.id m = k) l'
  = fst <$> list_find (λ m, ChatMessage.id m = k) l.
Proof.
  intros H.
  assert (∀ l0 : list ChatMessage.t,
            fst <$> list_find (λ m, ChatMessage.id m = k) l0
            = fst <$> list_find (λ p : string * Role, p.1 = k) (speaker <$> l0))
    as Hf.
  { intros l0. rewrite list_find_fmap.
    change ((λ p : string * Role, p.1 = k) ∘ speaker)
      with (λ m, ChatMessage.id m = k).
    by destruct (list_find _ l0) as [[? ?]|]. }
  by rewrite !Hf, H.
Qed.

Lemma handleSendMessage_chunk_frame chunk x s :
  let found :=
    list_find (λ m, ChatMessage.id m = modelMessageId x) (chatMessages s) in
  let s' := (handleSendMessage_chunk chunk x s).1 in
  modelMessageId (handleSendMessage_chunk chunk x s).2 = modelMessageId x
  ∧ (∀ j : nat, fst <$> found ≠ Some j →
                chatMessages s' !! j = chatMessages s !! j)
  ∧ (found = None → s' = s).
Proof.
  cbn zeta. unfold handleSendMessage_chunk. cbn zeta.
  cbn [modelMessageId].
  destruct (list_find _ _) as [[i m]|]; [|done]. cbn.
  split_and!; [done| |done].
  intros j Hj. apply list_lookup_alter_ne. intros ->. done.
Qed.

Lemma handleSendMessage_chunks_keep chunks : ∀ x s,
  let s' := (handleSendMessage_chunks chunks x s).1 in
  speaker <$> chatMessages s' = speaker <$> chatMessages s
  ∧ chat s' = chat s
  ∧ isChatLoading s' = isChatLoading s
  ∧ language s' = language s
  ∧ ∀ (j : nat) m, chatMessages s !! j = Some m →
                   ChatMessage.id m ≠ modelMessageId x →
                   chatMessages s' !! j = Some m.
Proof.
  cbn zeta. induction chunks as [|chunk chunks IH]; intros x s; [done|].
  cbn [handleSendMessage_chunks].
  destruct (handleSendMessage_chunk_frame chunk x s) as (Hid & Hframe & _).
  destruct (chat_handleSendMessage_chunk chunk x s)
    as (_ & Hl & _ & Hc & Hf & Hs).
  cbn zeta in *.
  destruct (handleSendMessage_chunk chunk x s) as [s1 x1].
  cbn [fst snd] in *.
  destruct (IH x1 s1) as (IHs & IHc & IHf & IHl & IHkeep).
  rewrite Hid in IHkeep.
  split_and!; [congruence..|].
  intros j m Hj Hne. apply IHkeep; [|done]. rewrite Hframe; [done|].
  destruct (list_find _ _) as [[i m']|] eqn:Ef; [|done].
  cbn. intros [= ->].
  apply list_find_Some in Ef as (Hi & Hm & _).
  rewrite Hj in Hi. by injection Hi as <-.
Qed.

Lemma handleSendMessage_sends inputValue now s :
  Js.trim inputValue ≠ "" → is_Some (chat s) → isChatLoading s = false →
  handleSendMessage inputValue now s
  = (s |> set_chatMessages
            (chatMessages s ++
               [userMessage (timestamp now) (Js.trim inputValue)])
       |> set_isChatLoading true,
     Some (Js.trim inputValue)).
Proof.
  intros H1 H2 H3. unfold handleSendMessage. cbn zeta.
  apply truthy_ne in H1. rewrite H1, H3.
  by rewrite (bool_decide_true (is_Some (chat s))) by done.
Qed.

End Sending.

(** X11.  A message of white space only is never sent, and no message is
    sent before the chat is set up: [handleSendMessage] leaves the state
    as it is and sends nothing. *)
Theorem blank_message_not_sent (inputValue : string) (now : N) (s : AppState) :
  Js.WhiteSpaceOnly inputValue ∨ chat s = None →
  handleSendMessage inputValue now s = (s, None).
Proof.
  intros [H|H]; unfold handleSendMessage; cbn zeta.
  - by rewrite trim_WhiteSpaceOnly.
  - rewrite H. rewrite (bool_decide_false (is_Some None)).
    + by rewrite orb_true_r.
    + by intros [? ?].
Qed.

Lemma blank_message_not_sent_witness :
  handleSendMessage (String " " (String Js.LF "")) 1700000000000
    (handleSetTab chatbot state)
  = (handleSetTab chatbot state, None).
Proof.
  apply blank_message_not_sent. left.
  apply Js.wso_1; [reflexivity|].
  apply Js.wso_1; [reflexivity|].
  constructor.
Defined.

(** X12.  The fragments of a reply change no message but the first one
    with the id of that reply: ids, roles and positions of all messages
    are kept, every other message keeps its text, and nothing else of the
    state changes.  When no message has that id, as after a language
    toggle, the fragments change nothing at all. *)
Theorem stream_fragments_frame (chunks : list (option string))
    (x : Exchange) (s : AppState) :
  let found :=
    list_find (λ m, ChatMessage.id m = modelMessageId x) (chatMessages s) in
  let s' := (handleSendMessage_chunks chunks x s).1 in
  speaker <$> chatMessages s' = speaker <$> chatMessages s
  ∧ (∀ j : nat, fst <$> found ≠ Some j →
                chatMessages s' !! j = chatMessages s !! j)
  ∧ (found = None → s' = s)
  ∧ recyclerFields s' = recyclerFields s
  ∧ (chat s', isChatLoading s', language s', activeTab s')
    = (chat s, isChatLoading s, language s, activeTab s).
Proof.
  cbn zeta. revert x s.
  induction chunks as [|chunk chunks IH]; intros x s; [done|].
  cbn [handleSendMessage_chunks].
  destruct (handleSendMessage_chunk_frame chunk x s) as (Hid & Hj & Hnone).
  destruct (chat_handleSendMessage_chunk chunk x s)
    as (Hr & Hl & Ht & Hc & Hf & Hs).
  cbn zeta in *.
  destruct (handleSendMessage_chunk chunk x s) as [s1 x1].
  cbn [fst snd] in *.
  destruct (IH x1 s1) as (IHs & IHj & IHnone & IHr & IHc).
  pose proof (find_speaker (modelMessageId x) _ _ Hs) as Hfind.
  rewrite Hid in *.
  split_and!.
  - by rewrite IHs.
  - intros j Hne. rewrite IHj, Hj; [done..|]. by rewrite Hfind.
  - intros Hn. rewrite IHnone, Hnone; [done..|].
    by rewrite (Hnone Hn).
  - by rewrite IHr.
  - rewrite IHc. by rewrite Hc, Hf, Hl, Ht.
Qed.

(** X13.  When a message is accepted on the chat tab and the exchange
    fails, before its stream is delivered or after that, while the
    fragments are read, the transcript has behind the messages it had: the
    user's message, the message of the reply if the stream was delivered,
    and one error message in the language of the page, which is the last.
    The old messages keep their ids, roles and places, and their texts but
    for a message that has the id of the reply.  The chat is not left
    waiting, and the next message is accepted. *)
Theorem failed_exchange (inputValue : string) (sent failed : N)
    (delivered : option (N * list (option string))) (s : AppState) :
  activeTab s = chatbot →
  Js.trim inputValue ≠ "" → is_Some (chat s) → isChatLoading s = false →
  let s' := failedChatMessage inputValue sent delivered failed s in
  speaker <$> chatMessages s'
  = (speaker <$> chatMessages s)
    ++ [(timestamp sent, user)]
    ++ match delivered with
       | Some (opened, _) => [(timestamp opened +:+ "-model", model)]
       | None => []
       end
    ++ [("error-" +:+ timestamp failed, model)]
  ∧ chatMessages s' !! length (chatMessages s)
    = Some (userMessage (timestamp sent) (Js.trim inputValue))
  ∧ last (chatMessages s') = Some (errorMessage failed (language s))
  ∧ (∀ (j : nat) m,
       chatMessages s !! j = Some m →
       (∀ opened chunks, delivered = Some (opened, chunks) →
                         ChatMessage.id m ≠ timestamp opened +:+ "-model") →
       chatMessages s' !! j = Some m)
  ∧ (delivered = None →
     chatMessages s'
     = chatMessages s ++ [userMessage (timestamp sent) (Js.trim inputValue);
                          errorMessage failed (language s)])
  ∧ isChatLoading s' = false
  ∧ chat s' = chat s
  ∧ ∀ next now, Js.trim next ≠ "" →
      (handleSendMessage next now s').2 = Some (Js.trim next).
Proof.
  intros _ Hin Hc Hl. cbn zeta. unfold failedChatMessage.
  rewrite handleSendMessage_sends by done.
  destruct delivered as [[opened chunks]|].
  - unfold handleSendMessage_stream. cbn zeta.
    match goal with
    | |- context [handleSendMessage_chunks chunks ?x ?s2] =>
        destruct (handleSendMessage_chunks_keep chunks x s2)
          as (Hsp & Hchat & Hflag & Hlang & Hkeep);
        set (s3 := (handleSendMessage_chunks chunks x s2).1) in *
    end.
    cbn [modelMessageId chatMessages set_chatMessages set_isChatLoading
           chat isChatLoading language] in Hsp, Hchat, Hflag, Hlang, Hkeep.
    unfold handleSendMessage_catch.
    cbn [chatMessages set_chatMessages set_isChatLoading chat isChatLoading
           language].
    assert (length (chatMessages s3) = S (S (length (chatMessages s))))
      as Hlen.
    { rewrite <- (length_fmap speaker), Hsp, length_fmap, !length_app. cbn. lia. }
    assert (∀ (j : nat) m,
              (chatMessages s ++
                 [userMessage (timestamp sent) (Js.trim inputValue)]) !! j
              = Some m →
              ChatMessage.id m ≠ timestamp opened +:+ "-model" →
              (chatMessages s3 ++ [errorMessage failed (language s)]) !! j
              = Some m) as Hold.
    { intros j m Hj Hne. apply lookup_app_l_Some, Hkeep; [|done].
      by apply lookup_app_l_Some. }
    rewrite Hlang. split_and!.
    + rewrite fmap_app, Hsp, !fmap_app. cbn. by rewrite <- !app_assoc.
    + apply Hold; [by apply list_lookup_middle|apply user_id_ne_model_id].
    + apply last_snoc.
    + intros j m Hj Hne. apply Hold; [by apply lookup_app_l_Some|].
      by apply (Hne opened chunks).
    + done.
    + done.
    + done.
    + intros next now Hnext. rewrite handleSendMessage_sends; [done..| |done].
      cbn. by rewrite Hchat.
  - unfold handleSendMessage_catch.
    cbn [chatMessages set_chatMessages set_isChatLoading chat isChatLoading
           language].
    split_and!.
    + rewrite !fmap_app. cbn. by rewrite <- !app_assoc.
    + rewrite <- app_assoc. by apply list_lookup_middle.
    + apply last_snoc.
    + intros j m Hj _. by do 2 apply lookup_app_l_Some.
    + intros _. by rewrite <- app_assoc.
    + done.
    + done.
    + intros next now Hnext. by rewrite handleSendMessage_sends.
Qed.

Lemma failed_exchange_witness :
  let s' := failedChatMessage "hello" 1000 (Some (1250%N, [Some "Hel"])) 1400
              (handleSetTab chatbot state) in
  speaker <$> chatMessages s'
  = [("initial", model); ("1000", user); ("1250-model", model);
     ("error-1400", model)]
  ∧ isChatLoading s' = false.
Proof.
  cbv zeta.
  destruct (failed_exchange "hello" 1000 1400 (Some (1250%N, [Some "Hel"]))
              (handleSetTab chatbot state))
    as (H1 & _ & _ & _ & _ & H2 & _).
  - reflexivity.
  - discriminate.
  - by eexists.
  - reflexivity.
  - split; [exact H1|exact H2].
Defined.

(** ** Language and reset, composed *)

(** X14.  A reset after a language toggle changes nothing, and a reset
    before it makes no difference to what the toggle gives.  A second
    toggle brings the language back, and a third gives the state of the
    first again. *)
Theorem toggle_and_reset_compose (s : AppState) :
  handleReset (handleToggleLanguage s) = handleToggleLanguage s
  ∧ handleToggleLanguage (handleReset s) = handleToggleLanguage s
  ∧ language (handleToggleLanguage (handleToggleLanguage s)) = language s
  ∧ handleToggleLanguage (handleToggleLanguage (handleToggleLanguage s))
    = handleToggleLanguage s.
Proof.
  unfold handleToggleLanguage, handleReset, initChat.
  cbn -[t startChat]. by destruct (language s).
Qed.

(** ** The fenced block *)

Section Lexer.

Ltac by_cases_on a :=
  destruct a as [[] [] [] [] [] [] [] []]; vm_compute; try done.

Lemma lexScan_Invalid s : lexScan Invalid s = Invalid.
Proof. induction s; simpl; auto. Qed.

Lemma lexScan_app q s1 s2 :
  lexScan q (s1 +:+ s2) = lexScan (lexScan q s1) s2.
Proof. revert q; induction s1; intros q; simpl; auto. Qed.

Lemma isWs_Outside a : Json.isWs a = true → lexStep Outside a = Outside.
Proof. by_cases_on a. Qed.

Lemma isDigit_Outside a : Js.isDigit a = true → lexStep Outside a = Outside.
Proof. by_cases_on a. Qed.

Lemma skipWs_lex s : lexScan Outside (Json.skipWs s) = lexScan Outside s.
Proof.
  induction s as [|a s IH]; [done|]. cbn [lexScan Json.skipWs].
  destruct (Json.isWs a) eqn:E; [|done].
  by rewrite (isWs_Outside _ E).
Qed.

Lemma span_isDigit_lex s l r :
  Js.span Js.isDigit s = (l, r) → lexScan Outside s = lexScan Outside r.
Proof.
  revert l; induction s as [|a s IH]; intros l; cbn [lexScan Js.span].
  - by intros [= _ <-].
  - destruct (Js.isDigit a) eqn:E.
    + destruct (Js.span Js.isDigit s) as [l' r'].
      intros [= _ <-]. rewrite (isDigit_Outside _ E). by eapply IH.
    + by intros [= _ <-].
Qed.

Lemma stripPrefix_lex pat s r :
  lexScan Outside pat = Outside →
  Js.stripPrefix pat s = Some r → lexScan Outside s = lexScan Outside r.
Proof.
  intros Hpat H. apply stripPrefix_Some in H as ->.
  by rewrite lexScan_app, Hpat.
Qed.

Lemma optSign_lex s neg r :
  optSign s = (neg, r) → lexScan Outside s = lexScan Outside r.
Proof.
  destruct s as [|a s]; cbn [optSign].
  - by intros [= _ <-].
  - destruct (Ascii.eqb_spec a "-") as [->|]; [by intros [= _ <-]|].
    destruct (Ascii.eqb_spec a "+") as [->|]; by intros [= _ <-].
Qed.

Lemma exponentPart_lex s e r :
  exponentPart s = Some (e, r) → lexScan Outside s = lexScan Outside r.
Proof.
  destruct s as [|a s]; cbn [exponentPart]; [done|].
  destruct (Ascii.eqb a "e" || Ascii.eqb a "E") eqn:Ea; [|done].
  destruct (optSign s) as [neg r1] eqn:Es.
  destruct (Js.span Js.isDigit r1) as [ds r2] eqn:Ed.
  destruct (Js.isEmpty ds); [done|]. intros [= _ <-].
  cbn [lexScan].
  replace (lexStep Outside a) with Outside.
  - rewrite (optSign_lex _ _ _ Es). by eapply span_isDigit_lex.
  - apply orb_true_iff in Ea as [Ea|Ea]; apply Ascii.eqb_eq in Ea as ->; done.
Qed.

Lemma parseNumber_lex s n r :
  Json.parseNumber s = Some (n, r) → lexScan Outside s = lexScan Outside r.
Proof.
  unfold Json.parseNumber.
  set (sg := match s with
             | "" => (false, s)
             | String a r0 => if Ascii.eqb a "-" then (true, r0) else (false, s)
             end).
  assert (Hsg : lexScan Outside s = lexScan Outside sg.2).
  { subst sg. destruct s as [|a s]; [done|].
    by destruct (Ascii.eqb_spec a "-") as [->|]. }
  destruct sg as [neg s1]. cbn [snd] in Hsg. rewrite Hsg.
  destruct (Js.span Js.isDigit s1) as [ip r1] eqn:Eip.
  rewrite (span_isDigit_lex _ _ _ Eip).
  destruct (negb (Json.intOk ip)); [done|].
  set (frac := match r1 with
               | "" => Some ("", r1)
               | String a r0 =>
                   if Ascii.eqb a "."
                   then let '(fp, r2) := Js.span Js.isDigit r0 in
                        if Js.isEmpty fp then None else Some (fp, r2)
                   else Some ("", r1)
               end).
  assert (Hfrac : ∀ fp r2, frac = Some (fp, r2) →
                           lexScan Outside r1 = lexScan Outside r2).
  { subst frac. intros fp r2. destruct r1 as [|a r0]; [by intros [= _ <-]|].
    destruct (Ascii.eqb_spec a ".") as [->|]; [|by intros [= _ <-]].
    destruct (Js.span Js.isDigit r0) as [fp' r2'] eqn:Efp.
    destruct (Js.isEmpty fp'); [done|]. intros [= _ <-].
    cbn [lexScan]. by eapply span_isDigit_lex. }
  destruct frac as [[fp r2]|]; [|done]. rewrite (Hfrac _ _ eq_refl).
  set (ex := match r2 with
             | "" => Some (0%Z, r2)
             | String a _ =>
                 if Ascii.eqb a "e" || Ascii.eqb a "E"
                 then exponentPart r2 else Some (0%Z, r2)
             end).
  assert (Hex : ∀ e r3, ex = Some (e, r3) →
                        lexScan Outside r2 = lexScan Outside r3).
  { subst ex. intros e r3. destruct r2 as [|a r0]; [by intros [= _ <-]|].
    destruct (Ascii.eqb a "e" || Ascii.eqb a "E"); [|by intros [= _ <-]].
    apply exponentPart_lex. }
  destruct ex as [[e r3]|]; [|done]. intros [= _ <-]. by eapply Hex.
Qed.

Lemma hexDigit_Inside a n :
  Json.hexDigit a = Some n → lexStep Inside a = Inside.
Proof. by_cases_on a. Qed.

Lemma simpleEscape_Inside a u :
  Json.simpleEscape a = Some u → lexStep Escaped a = Inside.
Proof. by_cases_on a. Qed.

Lemma stringBody_lex n : ∀ s ps r,
  (String.length s ≤ n)%nat →
  Json.stringBody s = Some (ps, r) → lexScan Inside s = lexScan Outside r.
Proof.
  induction n as [|n IH]; intros s ps r Hlen.
  { destruct s; [done|simpl in Hlen; lia]. }
  destruct s as [|a s]; [done|]. cbn [Json.stringBody lexScan].
  cbn [String.length] in Hlen. unfold lexStep at 1.
  destruct (Ascii.eqb_spec a Js.DQ) as [->|Hdq].
  { by intros [= _ <-]. }
  destruct (Ascii.eqb_spec a Js.BACKSLASH) as [->|Hbs].
  - destruct s as [|e s]; [done|]. cbn [String.length] in Hlen.
    destruct (Ascii.eqb_spec e "u") as [->|Hu].
    + destruct s as [|h1 [|h2 [|h3 [|h4 s]]]]; try done.
      destruct (Json.hex4 h1 h2 h3 h4) as [u|] eqn:Eh; [|done].
      apply hex4_Some in Eh as ([? H1] & [? H2] & [? H3] & [? H4]).
      destruct (Json.stringBody s) as [[ps' rest]|] eqn:Eb; [|done].
      intros [= _ <-]. cbn [lexScan].
      change (lexStep Escaped "u") with Inside.
      rewrite (hexDigit_Inside _ _ H1), (hexDigit_Inside _ _ H2),
        (hexDigit_Inside _ _ H3), (hexDigit_Inside _ _ H4).
      eapply IH; [|done]. cbn [String.length] in Hlen. lia.
    + destruct (Json.simpleEscape e) as [u|] eqn:Ee; [|done].
      destruct (Json.stringBody s) as [[ps' rest]|] eqn:Eb; [|done].
      intros [= _ <-]. cbn [lexScan].
      rewrite (simpleEscape_Inside _ _ Ee). eapply IH; [lia|done].
  - destruct (Js.code a <? 32)%N eqn:Ec; [done|].
    destruct (Json.stringBody s) as [[ps' rest]|] eqn:Eb; [|done].
    intros [= _ <-]. eapply IH; [lia|done].
Qed.

Lemma parseString_lex s str r :
  Json.parseString s = Some (str, r) →
  lexScan Inside s = lexScan Outside r.
Proof.
  unfold Json.parseString.
  destruct (Json.stringBody s) as [[ps rest]|] eqn:E; [|done].
  intros [= _ <-]. by eapply stringBody_lex.
Qed.

Ltac step_outside :=
  cbn [lexScan];
  match goal with
  | |- context [lexStep Outside ?a] => change (lexStep Outside a) with Outside
  end.

Lemma parse_lex fuel :
  (∀ s v r, Json.parseValue fuel s = Some (v, r) →
            lexScan Outside s = lexScan Outside r)
  ∧ (∀ s vs r, Json.parseElements fuel s = Some (vs, r) →
               lexScan Outside s = lexScan Outside r)
  ∧ (∀ s ms r, Json.parseMembers fuel s = Some (ms, r) →
               lexScan Outside s = lexScan Outside r).
Proof.
  induction fuel as [|fuel (IHv & IHe & IHm)]; [done|].
  split_and!.
  - intros s v r. cbn [Json.parseValue]. rewrite <- (skipWs_lex s).
    destruct (Json.skipWs s) as [|a r0]; [done|].
    destruct (Ascii.eqb_spec a "{") as [->|_].
    { cbn [lexScan]. change (lexStep Outside "{") with Outside.
      destruct (Json.skipWs r0) as [|b r1] eqn:E0; [done|].
      destruct (Ascii.eqb_spec b "}") as [->|_].
      { intros [= _ <-]. by rewrite <- (skipWs_lex r0), E0. }
      destruct (Json.parseMembers fuel r0) as [[ms rest]|] eqn:E; [|done].
      intros [= _ <-]. by eapply IHm. }
    destruct (Ascii.eqb_spec a "[") as [->|_].
    { cbn [lexScan]. change (lexStep Outside "[") with Outside.
      destruct (Json.skipWs r0) as [|b r1] eqn:E0; [done|].
      destruct (Ascii.eqb_spec b "]") as [->|_].
      { intros [= _ <-]. by rewrite <- (skipWs_lex r0), E0. }
      destruct (Json.parseElements fuel r0) as [[vs rest]|] eqn:E; [|done].
      intros [= _ <-]. by eapply IHe. }
    destruct (Ascii.eqb_spec a Js.DQ) as [->|_].
    { destruct (Json.parseString r0) as [[str rest]|] eqn:E; [|done].
      intros [= _ <-]. cbn [lexScan].
      change (lexStep Outside Js.DQ) with Inside.
      by eapply parseString_lex. }
    destruct (Js.stripPrefix "true" _) as [rest|] eqn:Et.
    { intros [= _ <-]. by apply (stripPrefix_lex "true"). }
    destruct (Js.stripPrefix "false" _) as [rest|] eqn:Ef.
    { intros [= _ <-]. by apply (stripPrefix_lex "false"). }
    destruct (Js.stripPrefix "null" _) as [rest|] eqn:En.
    { intros [= _ <-]. by apply (stripPrefix_lex "null"). }
    destruct (Json.parseNumber _) as [[n rest]|] eqn:E; [|done].
    intros [= _ <-]. by eapply parseNumber_lex.
  - intros s vs r. cbn [Json.parseElements].
    destruct (Json.parseValue fuel s) as [[v r0]|] eqn:Ev; [|done].
    rewrite (IHv _ _ _ Ev), <- (skipWs_lex r0).
    destruct (Json.skipWs r0) as [|c r1]; [done|].
    destruct (Ascii.eqb_spec c ",") as [->|_].
    { destruct (Json.parseElements fuel r1) as [[vs' rest]|] eqn:E; [|done].
      intros [= _ <-]. step_outside. by eapply IHe. }
    destruct (Ascii.eqb_spec c "]") as [->|_]; [|done].
    by intros [= _ <-].
  - intros s ms r. cbn [Json.parseMembers]. rewrite <- (skipWs_lex s).
    destruct (Json.skipWs s) as [|q r0]; [done|].
    destruct (Ascii.eqb_spec q Js.DQ) as [->|_]; [|done].
    destruct (Json.parseString r0) as [[k r1]|] eqn:Ek; [|done].
    cbn [lexScan]. change (lexStep Outside Js.DQ) with Inside.
    rewrite (parseString_lex _ _ _ Ek), <- (skipWs_lex r1).
    destruct (Json.skipWs r1) as [|c r2]; [done|].
    destruct (Ascii.eqb_spec c ":") as [->|_]; [|done].
    destruct (Json.parseValue fuel r2) as [[v r3]|] eqn:Ev; [|done].
    cbn [lexScan]. change (lexStep Outside ":") with Outside.
    rewrite (IHv _ _ _ Ev), <- (skipWs_lex r3).
    destruct (Json.skipWs r3) as [|d r4]; [done|].
    destruct (Ascii.eqb_spec d ",") as [->|_].
    { destruct (Json.parseMembers fuel r4) as [[ms' rest]|] eqn:E; [|done].
      intros [= _ <-]. step_outside. by eapply IHm. }
    destruct (Ascii.eqb_spec d "}") as [->|_]; [|done].
    by intros [= _ <-].
Qed.

(** The text of a JSON value ends outside of every string literal. *)
Lemma parse_Outside s v : Json.parse s = Some v → lexScan Outside s = Outside.
Proof.
  unfold Json.parse.
  destruct (Json.parseValue _ s) as [[v' rest]|] eqn:E; [|done].
  destruct (Js.isEmpty (Json.skipWs rest)) eqn:Er; [|done]. intros _.
  destruct (parse_lex (S (String.length s))) as (Hv & _ & _).
  rewrite (Hv _ _ _ E), <- skipWs_lex.
  by destruct (Json.skipWs rest).
Qed.

Lemma lfBackquote_Invalid s : ∀ q, lfBackquote s = true → lexScan q s = Invalid.
Proof.
  induction s as [|a s IH]; intros q; [done|].
  cbn [lfBackquote]. destruct s as [|b s]; [done|].
  intros H. apply orb_true_iff in H as [H|H].
  - apply andb_true_iff in H as [Ha Hb].
    apply Ascii.eqb_eq in Ha as ->. apply Ascii.eqb_eq in Hb as ->.
    cbn [lexScan].
    replace (lexStep (lexStep q Js.LF) "`") with Invalid by (by destruct q).
    apply lexScan_Invalid.
  - cbn [lexScan]. change (lexScan (lexStep q a) (String b s) = Invalid).
    by apply IH.
Qed.

(** No JSON text has a backquote right behind a line feed. *)
Lemma parse_lfBackquote s v : Json.parse s = Some v → lfBackquote s = false.
Proof.
  intros Hp. destruct (lfBackquote s) eqn:E; [|done].
  apply (lfBackquote_Invalid _ Outside) in E.
  by rewrite (parse_Outside _ _ Hp) in E.
Qed.

Lemma stripPrefix_app pat r : Js.stripPrefix pat (pat +:+ r) = Some r.
Proof.
  induction pat as [|a pat IH]; [done|].
  change (String a pat +:+ r) with (String a (pat +:+ r)).
  cbn [Js.stripPrefix]. by rewrite Ascii.eqb_refl.
Qed.

Lemma findBefore_fenceClose body post :
  lfBackquote body = false →
  Js.findBefore fenceClose (body +:+ fenceClose +:+ post) = Some body.
Proof.
  induction body as [|a body IH]; intros H.
  - change ("" +:+ fenceClose +:+ post) with (fenceClose +:+ post).
    destruct post; reflexivity.
  - change (String a body +:+ fenceClose +:+ post)
      with (String a (body +:+ fenceClose +:+ post)).
    cbn [Js.findBefore].
    assert (lfBackquote body = false) as Hb.
    { cbn [lfBackquote] in H. destruct body; [done|].
      by apply orb_false_iff in H as [_ H]. }
    rewrite (IH Hb).
    replace (Js.stripPrefix fenceClose
               (String a (body +:+ fenceClose +:+ post))) with (@None string);
      [done|].
    unfold fenceClose at 1. cbn [Js.stripPrefix].
    destruct (Ascii.eqb_spec Js.LF a) as [<-|]; [|done].
    destruct body as [|b body]; [done|].
    change (String b body +:+ fenceClose +:+ post)
      with (String b (body +:+ fenceClose +:+ post)).
    cbn [lfBackquote] in H. apply orb_false_iff in H as [H _].
    rewrite Ascii.eqb_refl in H. cbn [andb] in H.
    rewrite Ascii.eqb_sym in H. by rewrite H.
Qed.

Lemma stripPrefix_straddle pat r : ∀ pre,
  Js.stripPrefix pat pre = None →
  Js.stripPrefix pat (pre +:+ r) = None
  ∨ ∃ pat2, pat = pre +:+ pat2 ∧ pat2 ≠ "".
Proof.
  induction pat as [|a pat IH]; intros pre H; [done|].
  destruct pre as [|b pre]; [right; by exists (String a pat)|].
  change (String b pre +:+ r) with (String b (pre +:+ r)).
  cbn [Js.stripPrefix] in H |- *.
  destruct (Ascii.eqb_spec a b) as [<-|]; [|by left].
  destruct (IH pre H) as [?|(pat2 & -> & ?)]; [by left|].
  right. by exists pat2.
Qed.

(** No proper end of the opening fence is a start of it. *)
Lemma fenceOpen_no_border pre pat2 rest :
  pre ≠ "" → pat2 ≠ "" → fenceOpen = pre +:+ pat2 →
  Js.stripPrefix fenceOpen (pre +:+ fenceOpen +:+ rest) = None.
Proof.
  intros Hpre Hpat2 Heq.
  destruct pre as [|a pre]; [done|]. clear Hpre.
  vm_compute in Heq. injection Heq as <- Heq.
  repeat (destruct pre as [|? pre]; [reflexivity|];
          simpl in Heq; injection Heq as <- Heq).
  destruct pre; simpl in Heq; [by subst|done].
Qed.

Lemma stripPrefix_fenceOpen_app pre rest :
  pre ≠ "" → Js.stripPrefix fenceOpen pre = None →
  Js.stripPrefix fenceOpen (pre +:+ fenceOpen +:+ rest) = None.
Proof.
  intros Hne H.
  destruct (stripPrefix_straddle _ (fenceOpen +:+ rest) _ H)
    as [?|(pat2 & Heq & ?)]; [done|].
  by apply (fenceOpen_no_border _ pat2).
Qed.

Lemma findAfter_fenceOpen_app pre rest :
  Js.findAfter fenceOpen pre = None →
  Js.findAfter fenceOpen (pre +:+ fenceOpen +:+ rest) = Some rest.
Proof.
  induction pre as [|a pre IH]; intros H.
  - change ("" +:+ fenceOpen +:+ rest) with (fenceOpen +:+ rest).
    destruct rest; reflexivity.
  - cbn [Js.findAfter] in H.
    destruct (Js.stripPrefix fenceOpen (String a pre)) eqn:E; [done|].
    rewrite <- (IH H).
    change (String a pre +:+ fenceOpen +:+ rest)
      with (String a (pre +:+ fenceOpen +:+ rest)).
    cbn [Js.findAfter].
    change (String a (pre +:+ fenceOpen +:+ rest))
      with (String a pre +:+ fenceOpen +:+ rest).
    by rewrite stripPrefix_fenceOpen_app.
Qed.

End Lexer.

(** X15.  A JSON text in a fenced block is what the helper returns: when
    the response has prose that does not hold the opening fence, then the
    opening fence, the text of a JSON value and the closing fence, the
    helper returns that value, whatever stands before and after the
    block. *)
Theorem parseJsonResponse_fenced_block (pre body post : string) (v : Json.json) :
  Js.findAfter fenceOpen pre = None →
  Json.parse body = Some v →
  parseJsonResponse (pre +:+ fenceOpen +:+ body +:+ fenceClose +:+ post)
  = Ok v.
Proof.
  intros Hpre Hbody. unfold parseJsonResponse, fenceMatch.
  rewrite findAfter_fenceOpen_app by done.
  rewrite findBefore_fenceClose by (by eapply parse_lfBackquote).
  assert (Js.truthy body = true) as ->.
  { apply truthy_ne. by intros ->. }
  by rewrite Hbody.
Qed.

Lemma parseJsonResponse_fenced_block_witness :
  parseJsonResponse
    ("Here you go:" +:+ fenceOpen +:+ "[1, 2]" +:+ fenceClose +:+ " Enjoy!")
  = Ok (Json.JArray [Json.JNumber (Decimal false 1 0);
                     Json.JNumber (Decimal false 2 0)]).
Proof.
  apply parseJsonResponse_fenced_block.
  - reflexivity.
  - vm_compute. reflexivity.
Defined.

(** ** The services, from the payload to the result *)

Section Services.

Lemma sortSteps_sorted l : StronglySorted stepLe l → sortSteps l = l.
Proof.
  induction 1 as [|x l Hs IH Hx]; [done|].
  unfold sortSteps in *. cbn [foldr]. rewrite IH.
  destruct l as [|y l]; [done|]. cbn [insertStep].
  apply Forall_cons in Hx as [Hxy _]. unfold stepLe in Hxy.
  by rewrite (proj2 (Z.leb_le _ _) Hxy).
Qed.

Lemma responseText_Ok text message :
  Js.trim text ≠ "" → responseText (Some text) message = Ok (Js.trim text).
Proof.
  intros H. unfold responseText. cbn. apply truthy_ne in H. by rewrite H.
Qed.

Lemma parseJsonResponse_outcome s :
  (∃ v, parseJsonResponse s = Ok v) ∨ parseJsonResponse s = Throw invalidJson.
Proof.
  unfold parseJsonResponse. cbn zeta.
  destruct (match fenceMatch s with Some _ => _ | None => _ end); eauto.
Qed.

End Services.

(** X16.  When the response text is not blank and its payload is a
    project of the interface type, [getSteps] returns it with the steps
    in ascending order: the total and the breakdown are as received, and
    a payload whose steps are ascending already is returned as it is. *)
Theorem getSteps_returns (text : string) (parsed : Json.json)
    (received : ProjectData.t) :
  Js.trim text ≠ "" →
  parseJsonResponse (Js.trim text) = Ok parsed →
  Typed.asProjectData parsed = Some received →
  ∃ data,
    getSteps (Some text) = Ok data
    ∧ ProjectData.steps data = sortSteps (ProjectData.steps received)
    ∧ ProjectData.total_power_consumption_kwh data
      = ProjectData.total_power_consumption_kwh received
    ∧ ProjectData.power_consumption_breakdown data
      = ProjectData.power_consumption_breakdown received
    ∧ (StronglySorted stepLe (ProjectData.steps received) → data = received).
Proof.
  intros Htext Hparsed Hrec. eexists. split.
  - unfold getSteps. rewrite responseText_Ok by done.
    unfold mbind, result_bind. by rewrite Hparsed, Hrec.
  - cbn. split_and!; try done.
    intros Hs. rewrite sortSteps_sorted by done. by destruct received.
Qed.

Lemma getSteps_returns_witness :
  ∃ data,
    getSteps (Some (doubleQuoted "  {'total_power_consumption_kwh': 1, 'power_consumption_breakdown': [], 'steps': [{'step': 1, 'title': 'Cut', 'description': ''}]} "))
    = Ok data
    ∧ ProjectData.steps data
      = sortSteps [{| Step.step := 1; Step.title := "Cut";
                      Step.description := "" |}].
Proof.
  edestruct (getSteps_returns
    (doubleQuoted "  {'total_power_consumption_kwh': 1, 'power_consumption_breakdown': [], 'steps': [{'step': 1, 'title': 'Cut', 'description': ''}]} "))
    as (data & H1 & H2 & _).
  - vm_compute. discriminate.
  - vm_compute. reflexivity.
  - vm_compute. reflexivity.
  - exists data. split; [exact H1|exact H2].
Defined.

(** X17.  When the response text is not blank and its payload is a list
    of suggestions of the interface type, [getSuggestions] returns as many
    suggestions, in the order received, whatever becomes of the image
    requests: each one keeps its id, title, description and materials, and
    has the image of its own request when that delivered image bytes, and
    is as received otherwise. *)
Theorem getSuggestions_returns (text : string) (images : nat → option string)
    (parsed : Json.json) (received : list Suggestion.t) :
  Js.trim text ≠ "" →
  parseJsonResponse (Js.trim text) = Ok parsed →
  Typed.asSuggestions parsed = Some received →
  ∃ l,
    getSuggestions (Some text) images = Ok l
    ∧ length l = length received
    ∧ ∀ i sg0, received !! i = Some sg0 →
        ∃ sg, l !! i = Some sg
          ∧ Suggestion.id sg = Suggestion.id sg0
          ∧ Suggestion.title sg = Suggestion.title sg0
          ∧ Suggestion.description sg = Suggestion.description sg0
          ∧ Suggestion.materials_required sg
            = Suggestion.materials_required sg0
          ∧ Suggestion.image_base64 sg
            = match images i with
              | Some bytes =>
                  if Js.truthy bytes then Some bytes
                  else Suggestion.image_base64 sg0
              | None => Suggestion.image_base64 sg0
              end.
Proof.
  intros Htext Hparsed Hrec. eexists. split.
  - unfold getSuggestions. rewrite responseText_Ok by done.
    unfold mbind, result_bind. by rewrite Hparsed, Hrec.
  - split; [by rewrite length_imap|].
    intros i sg0 Hi. eexists. split.
    + rewrite list_lookup_imap, Hi. reflexivity.
    + unfold withImage. destruct (images i) as [bytes|]; [|done].
      by destruct (Js.truthy bytes).
Qed.

Lemma getSuggestions_returns_witness :
  ∃ l, getSuggestions (Some oneSuggestion)
         (λ i, if decide (i = 0) then Some "/9j/4AAQ" else None) = Ok l
       ∧ length l = 1.
Proof.
  edestruct (getSuggestions_returns oneSuggestion
               (λ i, if decide (i = 0) then Some "/9j/4AAQ" else None))
    as (l & H1 & H2 & _).
  - vm_compute. discriminate.
  - vm_compute. reflexivity.
  - vm_compute. reflexivity.
  - exists l. split; [exact H1|exact H2].
Defined.

(** X18.  The JSON helper has two outcomes only, a value or the error
    [Invalid JSON response from the model.]; both services pass that
    error on as it is when the response text is not blank. *)
Theorem invalid_json_is_passed_on (text : string)
    (images : nat → option string) :
  Js.trim text ≠ "" →
  ((∃ v, parseJsonResponse (Js.trim text) = Ok v)
   ∨ parseJsonResponse (Js.trim text) = Throw invalidJson)
  ∧ (parseJsonResponse (Js.trim text) = Throw invalidJson →
     getSuggestions (Some text) images = Throw invalidJson
     ∧ getSteps (Some text) = Throw invalidJson).
Proof.
  intros Htext. split; [apply parseJsonResponse_outcome|].
  intros H. unfold getSuggestions, getSteps.
  rewrite !responseText_Ok by done. unfold mbind, result_bind.
  by rewrite H.
Qed.

Lemma invalid_json_is_passed_on_witness :
  getSuggestions (Some "Sorry, no ideas.") (λ _, None) = Throw invalidJson
  ∧ getSteps (Some "Sorry, no ideas.") = Throw invalidJson.
Proof.
  refine (proj2 (invalid_json_is_passed_on "Sorry, no ideas." (λ _, None) _) _).
  - vm_compute. discriminate.
  - vm_compute. reflexivity.
Defined.

(** ** The texts of the page *)

(** X19.  Every key the page passes to [t] is a key of the table, and its
    entry has a text in both languages that is not empty: for these keys
    [t] never falls back on the key. *)
Theorem used_keys_are_translated :
  Forall (λ key, ∀ language,
            ∃ entry, translations !! Js.toLowerCase key = Some entry
                     ∧ t key language = Some (entryGet entry language)
                     ∧ entryGet entry language ≠ "")
    usedKeys.
Proof.
  unfold usedKeys.
  repeat (apply Forall_cons; split;
          [intros language; eexists; split; [vm_compute; reflexivity|];
           split; [vm_compute; reflexivity|]; by destruct language|]).
  apply Forall_nil_2.
Qed.

(** ** Quantities *)

(** X20.  When every quantity submitted is what a number input delivers,
    empty or a valid floating-point number, no material of the list has
    the quantity [NaN], whatever is added and deleted. *)
Theorem quantities_are_numbers (ops : list MaterialOp) (s : AppState) :
  Forall (λ op, numericForm op = true) ops →
  Forall (λ m, isNaN (Material.quantity m) = false) (materials s) →
  Forall (λ m, isNaN (Material.quantity m) = false)
    (materials (materialOps ops s)).
Proof.
  intros Hops. revert s.
  induction Hops as [|op ops Hop _ IH]; intros s H; [done|].
  rewrite materialOps_cons. apply IH.
  destruct op as [form now|id]; cbn [materialOp].
  - unfold handleAddMaterial. cbn zeta. cbn [numericForm] in Hop.
    destruct (Js.truthy (Form.name form)); [|done].
    destruct (Js.truthy (Form.quantity form)); [|done]. cbn.
    apply Forall_app. split; [done|]. constructor; [|done].
    cbn. by apply validFloatingPointNumber_number.
  - cbn. rewrite Forall_forall in H. apply Forall_forall. intros m Hm.
    apply list_elem_of_filter in Hm as [_ Hm]. by apply H.
Qed.

Lemma quantities_are_numbers_witness :
  Forall (λ m, isNaN (Material.quantity m) = false)
    (materials
       (materialOps
          [AddMaterial {| Form.name := "Tin"; Form.quantity := "2.5";
                          Form.unit := "kg" |}
             "2026-11-02T10:15:00.000Z";
           DeleteMaterial "2026-11-02T10:15:00.000Z";
           AddMaterial {| Form.name := "Glass"; Form.quantity := "1e3";
                          Form.unit := "g" |}
             "2026-11-02T10:15:01.000Z"]
          state)).
Proof.
  apply quantities_are_numbers.
  - repeat constructor.
  - constructor.
Defined.

(** ** One writer for each setting *)

(** X21.  The difficulty changes only by a click on a difficulty button,
    the language only by the language toggle, and the tab only by a click
    on a tab: reset, requests and the chat leave all three as they are,
    and the language toggle keeps the difficulty and the tab. *)
Theorem one_writer_per_setting (h : Happening) (s : AppState) :
  (setsDifficulty h = false → difficulty (happen h s) = difficulty s)
  ∧ (isToggle h = false → language (happen h s) = language s)
  ∧ (setsTab h = false → activeTab (happen h s) = activeTab s).
Proof.
  destruct h as [[e|o|o|chunk x]|now|now]; cbn [happen perform].
  - destruct e as [[id|]| |[id|]|[level|]| | | |[tab|]|form now|input now];
      cbn [dispatch]; split_and!; try done.
    all: try (destruct (Js.truthy id); [|done]); try done.
    all: try (unfold handleGetSuggestions; by case_bool_decide).
    all: try (unfold handleSelectSuggestion;
              by destruct (list_find _ _) as [[? ?]|]).
    all: try (unfold handleSetTab; cbn zeta; destruct tab; [done|];
              cbn [chat set_activeTab]; by destruct (chat s)).
    all: try (unfold handleAddMaterial; cbn zeta; by destruct (_ && _)).
    all: try (unfold handleSendMessage; cbn zeta; by destruct (_ || _ || _)).
  - by destruct o.
  - by destruct o.
  - unfold handleSendMessage_chunk. cbn zeta.
    by destruct (list_find _ _) as [[? ?]|].
  - done.
  - done.
Qed.

(** ** What holds in every state the page reaches *)

Section Reachable.

Lemma initial_ne_model_id opened : "initial" ≠ timestamp opened +:+ "-model".
Proof.
  pose proof (timestamp_allDigits opened) as Hd.
  destruct (timestamp opened) as [|a r]; [done|].
  rewrite allDigits_cons in Hd.
  change (String a r +:+ "-model") with (String a (r +:+ "-model")).
  intros [= <- _]. done.
Qed.

Lemma error_id_ne_model_id failed opened :
  "error-" +:+ timestamp failed ≠ timestamp opened +:+ "-model".
Proof.
  pose proof (timestamp_allDigits opened) as Hd.
  destruct (timestamp opened) as [|a r]; [done|].
  rewrite allDigits_cons in Hd.
  change (String a r +:+ "-model") with (String a (r +:+ "-model")).
  change ("error-" +:+ timestamp failed)
    with (String "e" ("rror-" +:+ timestamp failed)).
  intros [= <- _]. done.
Qed.

Lemma head_snoc {A} (l : list A) x y : head l = Some y → head (l ++ [x]) = Some y.
Proof. by destruct l. Qed.

Lemma greeted_happen h s :
  ofExchange h →
  (∀ c, chat s = Some c →
        c = startChat (language s)
        ∧ head (chatMessages s) = Some (greeting (language s))) →
  ∀ c, chat (happen h s) = Some c →
       c = startChat (language (happen h s))
       ∧ head (chatMessages (happen h s))
         = Some (greeting (language (happen h s))).
Proof.
  intros Hx Hs.
  destruct (ofRecycler h) eqn:Hr.
  { destruct (happen_ofRecycler h s Hr) as (Hf & -> & _).
    injection Hf as -> -> _. done. }
  destruct h as [[e|o|o|chunk x]|now|now]; try done; cbn [happen perform].
  - destruct e as [[id|]| |[id|]|[level|]| | | |[tab|]|form now|input now];
      try done; cbn [dispatch].
    + unfold handleToggleLanguage, initChat. cbn -[t startChat].
      by intros c [= <-].
    + unfold handleSetTab. cbn zeta. destruct tab; [exact Hs|].
      cbn [chat set_activeTab].
      destruct (chat s) as [c0|] eqn:Ec; [by rewrite <- Ec in Hs|].
      unfold initChat. cbn -[t startChat]. by intros c [= <-].
    + unfold handleSendMessage. cbn zeta. destruct (_ || _ || _); [done|].
      cbn -[t startChat]. intros c Hc. destruct (Hs c Hc) as [-> Hh].
      split; [done|]. by apply head_snoc.
  - destruct Hx as [opened Hid].
    unfold handleSendMessage_chunk. cbn zeta. cbn [modelMessageId].
    destruct (list_find _ _) as [[i m]|] eqn:Ef; [|done].
    cbn -[t startChat]. intros c Hc. destruct (Hs c Hc) as [-> Hh].
    split; [done|].
    apply list_find_Some in Ef as (Hi & Hm & _).
    destruct (chatMessages s) as [|m0 rest]; [done|].
    injection Hh as ->. destruct i as [|i]; [|done].
    injection Hi as <-. cbn in Hm. rewrite Hid in Hm.
    by apply initial_ne_model_id in Hm.
  - cbn -[t startChat]. intros c Hc. destruct (Hs c Hc) as [-> Hh].
    split; [done|]. by apply head_snoc.
  - cbn -[t startChat]. intros c Hc. destruct (Hs c Hc) as [-> Hh].
    split; [done|]. by apply head_snoc.
Qed.

Lemma error_happen h s :
  error s = None ∨ error s = Some suggestionsFailed
  ∨ error s = Some stepsFailed →
  error (happen h s) = None ∨ error (happen h s) = Some suggestionsFailed
  ∨ error (happen h s) = Some stepsFailed.
Proof.
  intros Hs.
  destruct (ofChat h) eqn:Hc.
  { destruct (happen_ofChat h s Hc) as (Hf & _).
    by injection Hf as _ _ _ _ _ -> _. }
  destruct h as [[e|o|o|chunk x]|now|now]; try done; cbn [happen perform].
  - destruct e as [[id|]| |[id|]|[level|]| | | |[tab|]|form now|input now];
      try done; cbn [dispatch].
    + by destruct (Js.truthy id).
    + unfold handleGetSuggestions. case_bool_decide; [done|]. by left.
    + destruct (Js.truthy id); [|done]. unfold handleSelectSuggestion.
      destruct (list_find _ _) as [[? ?]|]; [|done]. by left.
    + by left.
    + unfold handleSetTab. cbn zeta. destruct tab; [done|].
      cbn [chat set_activeTab]. by destruct (chat s).
    + unfold handleAddMaterial. cbn zeta. by destruct (_ && _).
  - destruct o; cbn; [done|]. right. by left.
  - destruct o; cbn; [done|]. right. by right.
Qed.

End Reachable.

(** X22.  In every state the page reaches from the initial state, a chat
    session, if there is one, is the session for the language of the
    page, and the transcript opens with the greeting in that language,
    whatever was sent, streamed or toggled in between. *)
Theorem chat_speaks_page_language (l : list Happening) (c : Chat.t) :
  Forall ofExchange l →
  let s := happenAll l state in
  chat s = Some c →
  c = startChat (language s)
  ∧ head (chatMessages s) = Some (greeting (language s)).
Proof.
  intros Hl. cbn zeta. revert c.
  assert (∀ c, chat state = Some c →
               c = startChat (language state)
               ∧ head (chatMessages state) = Some (greeting (language state)))
    as Hs by done.
  revert Hs. generalize state.
  induction Hl as [|h l Hh _ IH]; intros s Hs; [done|].
  rewrite happenAll_cons. apply IH. by apply greeted_happen.
Qed.

Lemma chat_speaks_page_language_witness :
  let l := [activity (on_event (click_set_tab (Some chatbot)));
            activity (on_event (submit_chat_form "hello" 1700000000000));
            stream_delivered 1700000000400;
            activity (on_event click_toggle_language);
            activity
              (stream_chunk (Some "Hi")
                 {| modelMessageId := timestamp 1700000000400 +:+ "-model";
                    modelResponse := "" |})] in
  startChat ar = startChat (language (happenAll l state))
  ∧ head (chatMessages (happenAll l state))
    = Some (greeting (language (happenAll l state))).
Proof.
  cbv zeta. apply chat_speaks_page_language.
  - repeat constructor. by exists 1700000000400%N.
  - reflexivity.
Defined.

(** X23.  In every state the page reaches from the initial state the
    error, if one is set, is one of the two texts of the handlers, and so
    is an error text on the page: nothing a service throws is shown. *)
Theorem error_is_one_of_two (l : list Happening) :
  let s := happenAll l state in
  (error s = None ∨ error s = Some suggestionsFailed
   ∨ error s = Some stepsFailed)
  ∧ ∀ message, renderApp s = SuggestionDisplay (ErrorText message) →
               message = suggestionsFailed ∨ message = stepsFailed.
Proof.
  cbn zeta.
  assert (error (happenAll l state) = None
          ∨ error (happenAll l state) = Some suggestionsFailed
          ∨ error (happenAll l state) = Some stepsFailed) as H.
  { assert (error state = None ∨ error state = Some suggestionsFailed
            ∨ error state = Some stepsFailed) as Hs by by left.
    revert Hs. generalize state.
    induction l as [|h l IH]; intros s Hs; [done|].
    rewrite happenAll_cons. by apply IH, error_happen. }
  split; [done|]. intros message. revert H.
  generalize (happenAll l state). intros s H.
  unfold renderApp, renderRecyclerContent, renderStepsDisplay,
    renderSuggestionDisplay, renderMaterialInputManager, errorSet.
  destruct (activeTab s); [|done].
  destruct (selectedSuggestion s) as [sg|].
  { by destruct (projectData s) as [data|], (isLoading s). }
  destruct (isLoading s); [done|].
  destruct (error s) as [e|] eqn:Ee.
  - destruct (Js.truthy e); case_bool_decide; cbn; try done.
    all: intros [= <-]; destruct H as [H|[H|H]]; try done.
    all: injection H as ->; by (left + right).
  - by case_bool_decide.
Qed.

(** X24.  The fragments of a reply never change the greeting, a message
    of the user or an error message: a message whose id is [initial], a
    clock reading, or [error-] and a clock reading is the same after the
    fragments as before. *)
Theorem fragments_spare_other_messages (chunks : list (option string))
    (opened : N) (response : string) (s : AppState) (j : nat)
    (m : ChatMessage.t) :
  chatMessages s !! j = Some m →
  ChatMessage.id m = "initial"
  ∨ (∃ sent, ChatMessage.id m = timestamp sent)
  ∨ (∃ failed, ChatMessage.id m = "error-" +:+ timestamp failed) →
  chatMessages
    (handleSendMessage_chunks chunks
       {| modelMessageId := timestamp opened +:+ "-model";
          modelResponse := response |} s).1 !! j
  = Some m.
Proof.
  intros Hj Hid.
  assert (ChatMessage.id m ≠ timestamp opened +:+ "-model") as Hne.
  { destruct Hid as [->|[[sent ->]|[failed ->]]].
    - apply initial_ne_model_id.
    - apply user_id_ne_model_id.
    - apply error_id_ne_model_id. }
  clear Hid. revert response s Hj.
  induction chunks as [|chunk chunks IH]; intros response s Hj; [done|].
  cbn [handleSendMessage_chunks].
  destruct (handleSendMessage_chunk_frame chunk
              {| modelMessageId := timestamp opened +:+ "-model";
                 modelResponse := response |} s) as (Hx & Hframe & _).
  cbn zeta in Hframe. cbn [modelMessageId] in Hx, Hframe.
  destruct (handleSendMessage_chunk chunk _ s) as [s1 [id1 response1]].
  cbn [fst snd modelMessageId] in *. subst id1.
  apply IH. rewrite Hframe; [done|].
  destruct (list_find _ _) as [[i m']|] eqn:Ef; [|done].
  cbn. intros [= ->].
  apply list_find_Some in Ef as (Hi & Hm & _).
  rewrite Hj in Hi. injection Hi as <-. done.
Qed.

Lemma fragments_spare_other_messages_witness :
  let s := (handleSendMessage_stream 1700000000400
              (handleSendMessage "hello" 1700000000000
                 (handleSetTab chatbot state)).1).1 in
  chatMessages
    (handleSendMessage_chunks [Some "Hi"; Some " there"]
       {| modelMessageId := timestamp 1700000000400 +:+ "-model";
          modelResponse := "" |} s).1 !! 1
  = Some (userMessage (timestamp 1700000000000) "hello").
Proof.
  cbv zeta. apply fragments_spare_other_messages.
  - reflexivity.
  - right. left. by exists 1700000000000%N.
Defined.

Section ChatTab.

Lemma chat_stays h s : is_Some (chat s) → is_Some (chat (happen h s)).
Proof.
  intros [c Hc]. destruct (isToggle h) eqn:Ht.
  - destruct h as [[[]| | |]| |]; first [done|by eexists].
  - destruct (happen_session h s c Ht Hc) as [-> _]. by eexists.
Qed.

Lemma chat_tab_happen h s :
  (activeTab s = chatbot → is_Some (chat s)) →
  activeTab (happen h s) = chatbot → is_Some (chat (happen h s)).
Proof.
  intros Hs.
  destruct (ofChat h) eqn:Hc.
  { destruct (happen_ofChat h s Hc) as (_ & _ & ->).
    intros H. by apply chat_stays, Hs. }
  destruct (ofRecycler h) eqn:Hr.
  { destruct (happen_ofRecycler h s Hr) as (_ & _ & ->).
    intros H. by apply chat_stays, Hs. }
  destruct h as [[[]| | |]| |]; try done; cbn [happen perform dispatch].
  - destruct tab as [[]|]; [done| |done].
    intros _. unfold handleSetTab. cbn zeta. cbn [chat set_activeTab].
    destruct (chat s) as [c0|] eqn:Ec; cbn; [by rewrite Ec|by eexists].
Qed.

End ChatTab.

(** X25.  In every state the page reaches from the initial state, the
    chat tab is only shown with a chat session; and when it is shown and
    the chat is not waiting for a reply, every message that is not blank
    is accepted and sent trimmed. *)
Theorem chat_tab_has_session (l : list Happening) :
  let s := happenAll l state in
  activeTab s = chatbot →
  is_Some (chat s)
  ∧ (isChatLoading s = false →
     ∀ inputValue now, Js.trim inputValue ≠ "" →
       (handleSendMessage inputValue now s).2 = Some (Js.trim inputValue)).
Proof.
  cbn zeta.
  assert (activeTab (happenAll l state) = chatbot →
          is_Some (chat (happenAll l state))) as H.
  { assert (activeTab state = chatbot → is_Some (chat state)) as Hs by done.
    revert Hs. generalize state.
    induction l as [|h l IH]; intros s Hs; [done|].
    rewrite happenAll_cons. apply IH. by apply chat_tab_happen. }
  intros Htab. split; [by apply H|].
  intros Hl inputValue now Hin. unfold handleSendMessage. cbn zeta.
  apply truthy_ne in Hin. rewrite Hin, Hl.
  by rewrite (bool_decide_true (is_Some (chat (happenAll l state))))
    by (by apply H).
Qed.

Lemma chat_tab_has_session_witness :
  let s := happenAll [activity (on_event click_toggle_language);
                      activity (on_event (click_set_tab (Some chatbot)))]
             state in
  is_Some (chat s)
  ∧ (isChatLoading s = false →
     ∀ inputValue now, Js.trim inputValue ≠ "" →
       (handleSendMessage inputValue now s).2 = Some (Js.trim inputValue)).
Proof.
  cbv zeta.
  apply (chat_tab_has_session
           [activity (on_event click_toggle_language);
            activity (on_event (click_set_tab (Some chatbot)))]).
  reflexivity.
Defined.

(** ** Reset, on the page *)

Section Runs.

#[local] Open Scope nat_scope.








End Runs.


